(** * Daily-activities automation of bing_rewards: a shallow embedding

    Source: [src/bing_rewards/daily_activities.py].

    The Python module drives a browser through Playwright.  The browser, the
    clock, the random generator and the file system are external; they are
    gathered in a [Driver] record and every theorem is universally quantified
    over it.  The coroutines of the module become programs of a small monad
    that threads the driver's world, carries Python exceptions, and records a
    trace of the driver calls.

    Scope.  Console output is outside the model: the [print] calls of the
    module are taken to succeed and leave no event, with one exception, the
    line by which [complete_activity] announces an activity, which is
    recorded as an event.  The import of [playwright.async_api], first
    statement of [run_daily_activities], is outside the model as well: the
    program of that name is the function from its second statement on, once
    Playwright is imported.  The result of a program, a value or an
    exception, is therefore what the calls of the driver make it; an
    encoding error of the console or a missing Playwright package is not
    among the exceptions considered. *)

From Stdlib Require Import List String Ascii Bool Arith NArith Lia Permutation.
Import ListNotations.

Set Implicit Arguments.

(* ------------------------------------------------------------------ *)
(** ** Python strings *)

Module PyStr.

(** A Python [str] is a sequence of code points; [len] counts code points. *)
Definition pystr := list N.

Fixpoint lit (s : string) : pystr :=
  match s with
  | EmptyString => []
  | String c r => N_of_ascii c :: lit r
  end.

(** Truthiness of a [str]: non-empty. *)
Definition truthy (s : pystr) : bool :=
  match s with [] => false | _ :: _ => true end.

(** The Unicode tables behind [str.strip], [str.split], [str.isdigit] and
    [str.lower] are CPython's; they are parameters of the model. *)
Record Unicode := {
  isspace : N -> bool;
  isdigit : N -> bool;
  lower : pystr -> pystr
}.

Section WithUnicode.
Variable U : Unicode.

Fixpoint lstrip (s : pystr) : pystr :=
  match s with
  | [] => []
  | c :: r => if isspace U c then lstrip r else s
  end.

Definition rstrip (s : pystr) : pystr := rev (lstrip (rev s)).

(** [s.strip()] *)
Definition strip (s : pystr) : pystr := rstrip (lstrip s).

Fixpoint split_aux (s cur : pystr) : list pystr :=
  match s with
  | [] => if truthy cur then [rev cur] else []
  | c :: r =>
      if isspace U c
      then (if truthy cur then rev cur :: split_aux r [] else split_aux r [])
      else split_aux r (c :: cur)
  end.

(** [s.split()] : maximal runs of non-whitespace. *)
Definition split (s : pystr) : list pystr := split_aux s [].

(** [s.isdigit()] : non-empty and every character a digit. *)
Definition str_isdigit (s : pystr) : bool :=
  truthy s && forallb (isdigit U) s.

End WithUnicode.

Fixpoint startswith (p s : pystr) : bool :=
  match p, s with
  | [], _ => true
  | _ :: _, [] => false
  | a :: p', b :: s' => N.eqb a b && startswith p' s'
  end.

(** [sub in s] *)
Fixpoint contains (sub s : pystr) : bool :=
  startswith sub s ||
  match s with
  | [] => false
  | _ :: r => contains sub r
  end.

(** [s[:n]] and [s[1:]] *)
Definition upto (n : nat) (s : pystr) : pystr := firstn n s.
Definition from1 (s : pystr) : pystr := skipn 1 s.

(** ASCII tables, used for concrete runs. *)
Definition ascii_isspace (c : N) : bool :=
  (N.leb 9 c && N.leb c 13) || (N.leb 28 c && N.leb c 32).
Definition ascii_isdigit (c : N) : bool := N.leb 48 c && N.leb c 57.
Definition ascii_lower1 (c : N) : N :=
  if N.leb 65 c && N.leb c 90 then (c + 32)%N else c.
Definition ascii_tables : Unicode :=
  {| isspace := ascii_isspace; isdigit := ascii_isdigit;
     lower := map ascii_lower1 |}.

End PyStr.
Import PyStr.

(* ------------------------------------------------------------------ *)
(** ** Exceptions and results *)

(** Instances of Python's [Exception] that the driver can raise.  Signals that
    are not subclasses of [Exception] (keyboard interrupt, task cancellation)
    are not caught by [except Exception] and are outside this model. *)
Inductive Exn :=
| TimeoutError
| PlaywrightError (msg : string)
| IndexError
| OSError (msg : string).

Inductive Res (A : Type) :=
| Ok (a : A)
| Raise (e : Exn).
Arguments Ok {A} a.
Arguments Raise {A} e.

Definition is_ok {A} (r : Res A) : bool :=
  match r with Ok _ => true | Raise _ => false end.

(* ------------------------------------------------------------------ *)
(** ** Data model *)

(** [class Activity] *)
Record Activity := mkActivity {
  title : pystr;
  points : pystr;
  url : pystr;
  completed : bool
}.

Definition REWARDS_URL : string := "https://rewards.bing.com/".

(** A path is its sequence of components; [p / s] appends one. *)
Definition Path := list pystr.
Definition path_div (p : Path) (s : string) : Path := p ++ [lit s].

(* ------------------------------------------------------------------ *)
(** ** The external driver *)

(** What is clicked: the quiz's start button or a chosen option. *)
Inductive Target := StartButton | OptionElem.

Record Driver := {
  World : Type;
  Elem : Type;
  Ctx : Type;
  (** [Page]: a DOM access either fails for the whole page (closed, crashed,
      execution context destroyed) or yields a snapshot that answers every
      selector with its matches in document order. *)
  page_dom : World -> Res (string -> list Elem);
  page_content : World -> Res pystr;
  page_goto : pystr -> N -> World -> Res unit * World;
  page_wait_for_load_state : N -> World -> Res unit * World;
  page_evaluate : string -> World -> Res unit * World;
  (** [ElementHandle] *)
  el_query_selector : Elem -> string -> World -> Res (option Elem);
  el_inner_text : Elem -> World -> Res pystr;
  el_get_attribute : Elem -> string -> World -> Res (option pystr);
  el_click : Elem -> World -> Res unit * World;
  (** [asyncio.sleep(random.uniform(a, b))], bounds in milliseconds *)
  sleep_uniform : N -> N -> World -> World;
  (** [random._randbelow] *)
  randbelow : nat -> World -> nat * World;
  (** [input()] run in the executor *)
  wait_input : World -> Res unit * World;
  (** [browser_utils.scan_system()]: browser key to executable *)
  scan_system : World -> Res (list (string * pystr));
  (** [os.environ.get], [Path.home()], [Path.exists], [any(Path.iterdir())],
      [Path.mkdir(parents=True, exist_ok=True)] *)
  environ_get : string -> World -> option pystr;
  path_home : World -> Res pystr;
  path_exists : Path -> World -> Res bool;
  path_iterdir_any : Path -> World -> Res bool;
  path_mkdir : Path -> World -> Res unit * World;
  (** [async_playwright()] entry and exit, the persistent context *)
  playwright_start : World -> Res unit * World;
  playwright_stop : World -> Res unit * World;
  launch_persistent_context : Path -> pystr -> bool -> World -> Res Ctx * World;
  context_new_page : Ctx -> World -> Res unit * World;
  context_close : Ctx -> World -> Res unit * World
}.

(** The driver calls a run performs, in order. *)
Inductive Event :=
| EvGoto (target : pystr) (ok : bool)
| EvWaitLoad (ok : bool)
| EvEvaluate (ok : bool)
| EvQueryAll (sel : string) (n : nat)
| EvChoice
| EvClick (what : Target) (ok : bool)
| EvDelay
| EvInput
| EvMkdir (ok : bool)
| EvStart (ok : bool)
| EvStop
| EvLaunch (user_data_dir : Path) (ok : bool)
| EvNewPage (ok : bool)
| EvClose (ok : bool)
| EvActivity (a : Activity).

(* ------------------------------------------------------------------ *)
(** ** The monad of coroutines *)

Section Program.

Variable D : Driver.

Record Out (A : Type) := mkOut {
  res : Res A;
  world : World D;
  trace : list Event
}.

Definition M (A : Type) := World D -> Out A.

Definition ret {A} (a : A) : M A := fun w => mkOut (Ok a) w [].

Definition raise {A} (e : Exn) : M A := fun w => mkOut (Raise e) w [].

Definition bind {A B} (m : M A) (f : A -> M B) : M B :=
  fun w =>
    let o := m w in
    match res o with
    | Ok a =>
        let o' := f a (world o) in
        mkOut (res o') (world o') (trace o ++ trace o')
    | Raise e => mkOut (Raise e) (world o) (trace o)
    end.

(** [try: m  except Exception as e: h e] *)
Definition try_except {A} (m : M A) (h : Exn -> M A) : M A :=
  fun w =>
    let o := m w in
    match res o with
    | Ok a => o
    | Raise e =>
        let o' := h e (world o) in
        mkOut (res o') (world o') (trace o ++ trace o')
    end.

End Program.

Arguments mkOut {D A} res world trace.
Arguments ret {D A} a.
Arguments raise {D A} e.
Arguments bind {D A B} m f.
Arguments try_except {D A} m h.

Declare Scope py_scope.
Delimit Scope py_scope with py.
Notation "x <- m ;; k" := (bind m (fun x => k))
  (at level 100, m at next level, right associativity) : py_scope.
Notation "m ;;; k" := (bind m (fun _ => k))
  (at level 100, right associativity) : py_scope.
Open Scope py_scope.
Open Scope string_scope.

(* ------------------------------------------------------------------ *)
(** ** Driver calls as programs *)

Section Coroutines.

Variable U : Unicode.
Variable D : Driver.

(** Lifts a state-changing driver call, logging one event. *)
Definition call {A} (f : World D -> Res A * World D) (ev : bool -> Event)
  : M D A :=
  fun w => let (r, w') := f w in mkOut r w' [ev (is_ok r)].

(** Lifts a read-only driver call. *)
Definition read {A} (f : World D -> Res A) : M D A :=
  fun w => mkOut (f w) w [].

(** [page.query_selector_all(sel)] *)
Definition query_selector_all (sel : string) : M D (list (Elem D)) :=
  fun w =>
    match page_dom D w with
    | Ok dom => mkOut (Ok (dom sel)) w [EvQueryAll sel (List.length (dom sel))]
    | Raise e => mkOut (Raise e) w []
    end.

(** [page.query_selector(sel)]: the first match, or [None]. *)
Definition query_selector (sel : string) : M D (option (Elem D)) :=
  read (fun w =>
    match page_dom D w with
    | Ok dom => Ok (hd_error (dom sel))
    | Raise e => Raise e
    end).

Definition goto (target : pystr) (timeout : N) : M D unit :=
  call (page_goto D target timeout) (EvGoto target).

Definition click (what : Target) (el : Elem D) : M D unit :=
  call (el_click D el) (EvClick what).

(** [_random_delay(min_s, max_s)], bounds in milliseconds *)
Definition _random_delay (min_ms max_ms : N) : M D unit :=
  fun w => mkOut (Ok tt) (sleep_uniform D min_ms max_ms w) [EvDelay].

(** [random.choice(seq)] *)
Definition random_choice (seq : list (Elem D)) : M D (Elem D) :=
  match seq with
  | [] => raise IndexError
  | x :: _ =>
      fun w =>
        let (i, w') := randbelow D (List.length seq) w in
        mkOut (Ok (nth (i mod List.length seq) seq x)) w' [EvChoice]
  end.

(** [_wait_for_page_load(page, timeout)] *)
Definition _wait_for_page_load (timeout : N) : M D unit :=
  try_except
    (call (page_wait_for_load_state D timeout) EvWaitLoad ;;;
     _random_delay 1000 2000)
    (fun _ => _random_delay 2000 3000).

Definition is_nil {A} (l : list A) : bool :=
  match l with [] => true | _ :: _ => false end.

Definition is_some {A} (o : option A) : bool :=
  match o with Some _ => true | None => false end.

(** [x or the empty string], for an optional string *)
Definition or_empty (o : option pystr) : pystr :=
  match o with Some s => s | None => [] end.

(** [options = first; if not options: options = second] *)
Definition or_else_query (first : list (Elem D)) (sel : string)
  : M D (list (Elem D)) :=
  if is_nil first then query_selector_all sel else ret first.

(* ------------------------------------------------------------------ *)
(** ** Activity type detection: [detect_activity_type] *)

Definition quiz_selectors : list string :=
  [ "#rqQuestionState"; "[class*='rqQuestion']"; "[id*='rqAnswerOption']";
    ".wk_choicesInst498"; "#quizCompleteContainer"; "[class*='QuizQuestion']" ].

Definition poll_selectors : list string :=
  [ "#btPollOverlay"; "[class*='pollOption']"; "[class*='PollOption']";
    "[class*='bt_poll']"; "[id*='btoption']" ].

Definition trivia_selectors : list string :=
  [ ".wk_Circle"; "[class*='TriviaOption']"; "#rqAnswerOption0";
    "[class*='trivia']"; "[class*='thisOrThat']"; "[class*='btOptionCard']" ].

Definition lightspeed_selectors : list string :=
  [ "[class*='lightspeed']"; "#rqStartQuiz"; "[id*='StartQuiz']" ].

(** [for sel in sels: if await page.query_selector(sel): return ...] ;
    [true] when the loop returned. *)
Fixpoint any_selector (sels : list string) : M D bool :=
  match sels with
  | [] => ret false
  | sel :: rest =>
      e <- query_selector sel ;;
      if is_some e then ret true else any_selector rest
  end.

Definition detect_activity_type : M D string :=
  _wait_for_page_load 10000 ;;;
  _random_delay 1500 3000 ;;;
  q <- any_selector quiz_selectors ;;
  if q then ret "quiz" else
  p <- any_selector poll_selectors ;;
  if p then ret "poll" else
  t <- any_selector trivia_selectors ;;
  if t then ret "trivia" else
  l <- any_selector lightspeed_selectors ;;
  if l then ret "quiz" else
  ret "click_only".

(* ------------------------------------------------------------------ *)
(** ** Handlers *)

Definition quiz_start_sel : string :=
  "#rqStartQuiz, [id*='StartQuiz'], [class*='start']".
Definition quiz_option_sel : string :=
  "[id*='rqAnswerOption'], .wk_choicesInstOptionContainer, [class*='AnswerOption'], [class*='answerOption']".
Definition quiz_generic_sel : string :=
  ".option-card, [class*='option'], [role='button']".
Definition quiz_complete_sel : string :=
  "#quizCompleteContainer, [class*='quizComplete'], [class*='QuizComplete'], [class*='congratulations']".

Definition poll_option_sel : string :=
  "#btoption0, #btoption1, [id*='btoption'], [class*='pollOption'], [class*='PollOption'], [class*='bt_poll'] [role='button']".
Definition poll_broad_sel : string :=
  "[class*='option-card'], [class*='btOption']".

Definition trivia_option_sel : string :=
  "#rqAnswerOption0, #rqAnswerOption1, [id*='rqAnswerOption'], .wk_Circle, [class*='btOptionCard'], [class*='TriviaOption'], [class*='option-card']".
Definition trivia_complete_sel : string :=
  "[class*='complete'], [class*='Complete'], [class*='congratulations'], #quizCompleteContainer".

(** [try: await choice.click(); print(...)  except Exception: pass] *)
Definition click_guarded (choice : Elem D) : M D unit :=
  try_except (click OptionElem choice) (fun _ => ret tt).

(** The [for q in range(n)] loop of [handle_quiz].  [Some b] when the body
    executed [return b]; [None] when the loop ended, by [break] or by
    exhausting the range. *)
Fixpoint quiz_loop (n : nat) : M D (option bool) :=
  match n with
  | O => ret None
  | S n' =>
      options <- query_selector_all quiz_option_sel ;;
      options <- or_else_query options quiz_generic_sel ;;
      if is_nil options then ret None else
      choice <- random_choice options ;;
      click_guarded choice ;;;
      _random_delay 1500 3000 ;;;
      complete <- query_selector quiz_complete_sel ;;
      if is_some complete then ret (Some true) else quiz_loop n'
  end.

(** What follows a [for] loop whose body may return: the returned value, or
    the statement after the loop. *)
Definition after_loop {A} (r : option A) (k : M D A) : M D A :=
  match r with Some a => ret a | None => k end.

Definition handle_quiz_body : M D bool :=
  start_btn <- query_selector quiz_start_sel ;;
  match start_btn with
  | Some b => click StartButton b ;;; _random_delay 2000 3000
  | None => ret tt
  end ;;;
  r <- quiz_loop 20 ;;
  after_loop r (ret true).

Definition handle_quiz : M D bool :=
  try_except handle_quiz_body (fun _ => ret false).

Definition handle_poll_body : M D bool :=
  options <- query_selector_all poll_option_sel ;;
  options <- or_else_query options poll_broad_sel ;;
  if is_nil options then ret false else
  choice <- random_choice options ;;
  click OptionElem choice ;;;
  _random_delay 2000 3000 ;;;
  ret true.

Definition handle_poll : M D bool :=
  try_except handle_poll_body (fun _ => ret false).

(** The [for q in range(n)] loop of [handle_trivia]. *)
Fixpoint trivia_loop (n : nat) : M D (option bool) :=
  match n with
  | O => ret None
  | S n' =>
      options <- query_selector_all trivia_option_sel ;;
      if is_nil options then ret None else
      choice <- random_choice options ;;
      click_guarded choice ;;;
      _random_delay 1500 3000 ;;;
      complete <- query_selector trivia_complete_sel ;;
      if is_some complete then ret (Some true) else trivia_loop n'
  end.

Definition handle_trivia_body : M D bool :=
  r <- trivia_loop 15 ;;
  after_loop r (ret true).

Definition handle_trivia : M D bool :=
  try_except handle_trivia_body (fun _ => ret false).

Definition handle_click_only_body : M D bool :=
  _wait_for_page_load 10000 ;;;
  _random_delay 3000 5000 ;;;
  call (page_evaluate D "window.scrollBy(0, 300)") EvEvaluate ;;;
  _random_delay 1000 2000 ;;;
  ret true.

Definition handle_click_only : M D bool :=
  try_except handle_click_only_body (fun _ => ret false).

(** [handlers.get(activity_type, handle_click_only)] *)
Definition handlers_get (activity_type : string) : M D bool :=
  if String.eqb activity_type "quiz" then handle_quiz
  else if String.eqb activity_type "poll" then handle_poll
  else if String.eqb activity_type "trivia" then handle_trivia
  else handle_click_only.

Definition full_url (a : Activity) : pystr :=
  if startswith (lit "http") (url a) then url a
  else (lit "https://rewards.bing.com" ++ url a)%list.

Definition complete_activity_body (a : Activity) : M D bool :=
  goto (full_url a) 30000 ;;;
  _random_delay 2000 4000 ;;;
  activity_type <- detect_activity_type ;;
  handlers_get activity_type.

(** The line printed before the [try] block of [complete_activity], which
    names the activity.  It is recorded as an event; as all console output,
    it is taken to succeed. *)
Definition announce (a : Activity) : M D unit :=
  fun w => mkOut (Ok tt) w [EvActivity a].

(** [complete_activity(page, activity)] *)
Definition complete_activity (a : Activity) : M D bool :=
  announce a ;;;
  try_except (complete_activity_body a) (fun _ => ret false).

(* ------------------------------------------------------------------ *)
(** ** Activity detection: [detect_activities] *)

Definition card_title_sel : string :=
  "[class*='title'], [class*='Title'], h3, h4, [aria-label]".
Definition card_points_sel : string :=
  "[class*='point'], [class*='Point'], [class*='badge'], [class*='Badge']".
Definition card_check_sel : string :=
  "[class*='complete'], [class*='Complete'], [class*='check'], [class*='Check'], [aria-label*='completed'], [aria-label*='Completed']".

(** [(await el.inner_text()).strip()] when the element exists, else the empty string *)
Definition stripped_text_of (el : option (Elem D)) : M D pystr :=
  match el with
  | Some e => txt <- read (el_inner_text D e) ;; ret (strip U txt)
  | None => ret []
  end.

(** The body of the [try] inside [for card in cards]: [Some a] when an
    activity is appended, [None] otherwise. *)
Definition parse_card (card : Elem D) : M D (option Activity) :=
  title_el <- read (el_query_selector D card card_title_sel) ;;
  title <- stripped_text_of title_el ;;
  title <- (if truthy title then ret title
            else txt <- read (el_inner_text D card) ;;
                 ret (upto 80 (strip U txt))) ;;
  if negb (truthy title) || Nat.ltb (List.length title) 3 then ret None else
  points_el <- read (el_query_selector D card card_points_sel) ;;
  points <- stripped_text_of points_el ;;
  link_el <- read (el_query_selector D card "a[href]") ;;
  url <- match link_el with
         | Some l => h <- read (el_get_attribute D l "href") ;; ret (or_empty h)
         | None => h <- read (el_get_attribute D card "href") ;; ret (or_empty h)
         end ;;
  check_el <- read (el_query_selector D card card_check_sel) ;;
  let completed := is_some check_el in
  if truthy url && negb completed
  then ret (Some (mkActivity title points url completed))
  else ret None.

(** [for x in xs: try: <parse x, maybe append> except Exception: continue] *)
Fixpoint scan (parse : Elem D -> M D (option Activity))
    (xs : list (Elem D)) (activities : list Activity) : M D (list Activity) :=
  match xs with
  | [] => ret activities
  | x :: rest =>
      r <- try_except (parse x) (fun _ => ret None) ;;
      scan parse rest
        (match r with Some a => activities ++ [a] | None => activities end)%list
  end.

Definition detect_activities : M D (list Activity) :=
  _wait_for_page_load 10000 ;;;
  _random_delay 2000 4000 ;;;
  cards <- query_selector_all "mee-card" ;;
  cards <- or_else_query cards "[class*='card'], [class*='Card']" ;;
  cards <- or_else_query cards
             "a[href*='daily'], a[href*='quiz'], a[href*='poll']" ;;
  scan parse_card cards [].

(* ------------------------------------------------------------------ *)
(** ** Alternative detection: [_detect_alternative] *)

Definition reward_indicators : list string :=
  [ "quiz"; "poll"; "trivia"; "puzzle";
    "+5"; "+10"; "+15"; "+20"; "+30"; "+50";
    "daily"; "challenge" ].

(** [for word in text.split(): if word.startswith("+") and
    word[1:].isdigit(): points = word; break] *)
Fixpoint extract_points (words : list pystr) : pystr :=
  match words with
  | [] => []
  | word :: rest =>
      if startswith (lit "+") word && str_isdigit U (from1 word)
      then word else extract_points rest
  end.

Definition parse_link (link : Elem D) : M D (option Activity) :=
  h <- read (el_get_attribute D link "href") ;;
  let href := or_empty h in
  txt <- read (el_inner_text D link) ;;
  let text := strip U txt in
  if negb (truthy text) || Nat.ltb (List.length text) 5 || Nat.ltb 200 (List.length text)
  then ret None else
  let text_lower := lower U text in
  let href_lower := lower U href in
  let is_reward :=
    existsb (fun ind => contains (lit ind) text_lower
                        || contains (lit ind) href_lower) reward_indicators in
  if is_reward && truthy href
  then ret (Some (mkActivity (upto 80 text) (extract_points (split U text))
                             href false))
  else ret None.

(** The outer handler returns the list built so far; the only statement of
    the outer [try] that can raise is the query, before anything is
    appended. *)
Definition _detect_alternative : M D (list Activity) :=
  try_except
    (links <- query_selector_all "a[href]" ;;
     scan parse_link links [])
    (fun _ => ret []).

(* ------------------------------------------------------------------ *)
(** ** Login gate: [_check_login] *)

Definition login_user_sel : string :=
  "#id_n, [class*='user-name'], [class*='mectrl_profilepic'], [class*='avatar'], #meControl".
Definition login_signin_sel : string :=
  "a[href*='login'], [class*='signIn'], [class*='SignIn'], #id_l, [id*='signin']".

Definition _check_login_body : M D bool :=
  user_element <- query_selector login_user_sel ;;
  if is_some user_element then ret true else
  content <- read (page_content D) ;;
  if contains (lit "rewards") (lower U content)
     && (contains (lit "point") (lower U content)
         || contains (lit "poin") (lower U content))
  then ret true else
  sign_in <- query_selector login_signin_sel ;;
  ret (negb (is_some sign_in)).

Definition _check_login : M D bool :=
  try_except _check_login_body (fun _ => ret true).

(* ------------------------------------------------------------------ *)
(** ** Entry point: [run_daily_activities] *)

Fixpoint dict_get (k : string) (d : list (string * pystr)) : option pystr :=
  match d with
  | [] => None
  | (k', v) :: r => if String.eqb k k' then Some v else dict_get k r
  end.

(** [for preferred in prefs: if preferred in browsers: browser_path = ...;
    break] *)
Fixpoint pick_preferred (prefs : list string) (browsers : list (string * pystr))
    (browser_path : pystr) : pystr :=
  match prefs with
  | [] => browser_path
  | preferred :: rest =>
      match dict_get preferred browsers with
      | Some exe => exe
      | None => pick_preferred rest browsers browser_path
      end
  end.

Definition autodetect (browser_path : pystr) : M D pystr :=
  if truthy browser_path then ret browser_path else
  try_except
    (browsers <- read (scan_system D) ;;
     if is_nil browsers then ret browser_path
     else ret (pick_preferred ["edge"; "chrome"; "brave"] browsers browser_path))
    (fun _ => ret browser_path).

(** [_get_bot_data_dir()].  The default of [os.environ.get] is evaluated
    before the lookup. *)
Definition _get_bot_data_dir : M D Path :=
  home <- read (path_home D) ;;
  let dflt := path_div (path_div [home] "AppData") "Local" in
  let localappdata :=
    fun w => match environ_get D "LOCALAPPDATA" w with
             | Some s => [s] | None => dflt end in
  base <- read (fun w => Ok (localappdata w)) ;;
  ret (path_div (path_div base "BingRewardsBot") "User Data").

(** The login part of the run; [Some n] when the coroutine executed
    [return n]. *)
Definition login_gate (context : Ctx D) : M D (option nat) :=
  logged_in <- _check_login ;;
  if logged_in then ret None else
  call (wait_input D) (fun _ => EvInput) ;;;
  goto (lit REWARDS_URL) 30000 ;;;
  _random_delay 3000 5000 ;;;
  logged_in <- _check_login ;;
  if logged_in then ret None else
  call (context_close D context) EvClose ;;;
  ret (Some 0).

(** The return to the dashboard after each activity:
    [try: await page.goto(REWARDS_URL, ...); await _random_delay(2.0, 3.0)
     except Exception: pass] *)
Definition back_to_dashboard : M D unit :=
  try_except
    (goto (lit REWARDS_URL) 30000 ;;; _random_delay 2000 3000)
    (fun _ => ret tt).

(** [for act in activities: ...], with the tally [completed] *)
Fixpoint run_activities (activities : list Activity) (completed : nat)
  : M D nat :=
  match activities with
  | [] => ret completed
  | act :: rest =>
      success <- complete_activity act ;;
      let completed := if success then S completed else completed in
      _random_delay 2000 4000 ;;;
      back_to_dashboard ;;;
      run_activities rest completed
  end.

(** The end of the [try] block: [await context.close()].  The variable
    [completed] keeps the loop's tally if the close raises. *)
Definition finish (context : Ctx D) (completed : nat) : M D nat :=
  try_except
    (call (context_close D context) EvClose ;;; ret completed)
    (fun _ => ret completed).

(** The [try] block of the run.  [completed] is 0 until the activity loop,
    which does not raise. *)
Definition session (browser_path : pystr) (headless dryrun : bool) : M D nat :=
  bot_data_dir <- _get_bot_data_dir ;;
  ex <- read (path_exists D bot_data_dir) ;;
  (if ex then read (path_iterdir_any D bot_data_dir) else ret false) ;;;
  call (path_mkdir D bot_data_dir) EvMkdir ;;;
  context <- call (launch_persistent_context D bot_data_dir browser_path
                     headless) (EvLaunch bot_data_dir) ;;
  call (context_new_page D context) EvNewPage ;;;
  goto (lit REWARDS_URL) 30000 ;;;
  _random_delay 3000 5000 ;;;
  r <- login_gate context ;;
  after_loop r
    (activities <- detect_activities ;;
     activities <- (if is_nil activities then _detect_alternative
                    else ret activities) ;;
     completed <- (if is_nil activities then ret 0
                   else if dryrun then ret 0
                   else run_activities activities 0) ;;
     finish context completed).

(** [run_daily_activities], after its import of [playwright.async_api]:
    browser detection, then [async with async_playwright()] around the
    [try] block. *)
Definition run_daily_activities (browser_path profile : pystr)
    (headless dryrun : bool) : M D nat :=
  browser_path <- autodetect browser_path ;;
  if negb (truthy browser_path) then ret 0 else
  call (playwright_start D) EvStart ;;;
  completed <- try_except (session browser_path headless dryrun)
                 (fun _ => ret 0) ;;
  call (playwright_stop D) (fun _ => EvStop) ;;;
  ret completed.

(** [run], the synchronous wrapper *)
Definition run (browser_path profile : pystr) (headless dryrun : bool)
  : M D nat :=
  run_daily_activities browser_path profile headless dryrun.

End Coroutines.

Arguments res {D A} o.
Arguments world {D A} o.
Arguments trace {D A} o.

(* ------------------------------------------------------------------ *)
(** ** A scripted driver, for concrete runs *)

Module Toy.

(** The world of the scripted driver: the page being shown and the number of
    clicks made on it. *)
Record State := mkState {
  page : pystr;
  clicks : nat
}.

Record Config := {
  (** the DOM, by page and clicks so far *)
  dom : pystr -> nat -> Res (string -> list nat);
  content : pystr;
  goto_ok : pystr -> bool;
  click_ok : nat -> bool;
  text : nat -> Res pystr;
  attr : nat -> string -> option pystr;
  sub : nat -> string -> option nat;
  browsers : list (string * pystr);
  launch_ok : bool
}.

Definition check (b : bool) : Res unit :=
  if b then Ok tt else Raise TimeoutError.

Definition driver (c : Config) : Driver :=
  {| World := State;
     Elem := nat;
     Ctx := unit;
     page_dom := fun w => dom c (page w) (clicks w);
     page_content := fun _ => Ok (content c);
     page_goto := fun target _ w =>
       if goto_ok c target then (Ok tt, mkState target 0)
       else (Raise TimeoutError, w);
     page_wait_for_load_state := fun _ w => (Ok tt, w);
     page_evaluate := fun _ w => (Ok tt, w);
     el_query_selector := fun e sel _ => Ok (sub c e sel);
     el_inner_text := fun e _ => text c e;
     el_get_attribute := fun e name _ => Ok (attr c e name);
     el_click := fun e w =>
       (check (click_ok c e), mkState (page w) (S (clicks w)));
     sleep_uniform := fun _ _ w => w;
     randbelow := fun _ w => (0, w);
     wait_input := fun w => (Ok tt, w);
     scan_system := fun _ => Ok (browsers c);
     environ_get := fun _ _ => Some (lit "C:\Users\bot\AppData\Local");
     path_home := fun _ => Ok (lit "C:\Users\bot");
     path_exists := fun _ _ => Ok true;
     path_iterdir_any := fun _ _ => Ok true;
     path_mkdir := fun _ w => (Ok tt, w);
     playwright_start := fun w => (Ok tt, w);
     playwright_stop := fun w => (Ok tt, w);
     launch_persistent_context := fun _ _ _ w =>
       (if launch_ok c then Ok tt else Raise (PlaywrightError "launch"), w);
     context_new_page := fun _ w => (Ok tt, w);
     context_close := fun _ w => (Ok tt, w) |}.

Definition start : State := mkState [] 0.

(** A page on which no selector matches anything. *)
Definition blank : Config :=
  {| dom := fun _ _ => Ok (fun _ => []);
     content := [];
     goto_ok := fun _ => true;
     click_ok := fun _ => true;
     text := fun _ => Ok [];
     attr := fun _ _ => None;
     sub := fun _ _ => None;
     browsers := [("edge", lit "msedge.exe")];
     launch_ok := true |}.

(** A page whose DOM cannot be accessed. *)
Definition broken : Config :=
  {| dom := fun _ _ => Raise (PlaywrightError "Target closed");
     content := content blank; goto_ok := goto_ok blank;
     click_ok := click_ok blank; text := text blank; attr := attr blank;
     sub := sub blank; browsers := browsers blank;
     launch_ok := launch_ok blank |}.

(** The selector [sel] matches the elements [els], nothing else matches. *)
Definition only (sel : string) (els : list nat) : string -> list nat :=
  fun s => if String.eqb s sel then els else [].

(** A poll with two options whose clicks fail. *)
Definition poll_click_fails : Config :=
  {| dom := fun _ _ => Ok (only poll_option_sel [1; 2]);
     content := content blank; goto_ok := goto_ok blank;
     click_ok := fun _ => false; text := text blank; attr := attr blank;
     sub := sub blank; browsers := browsers blank;
     launch_ok := launch_ok blank |}.

(** A page that always shows quiz and trivia options, never a start button
    or a completion marker, and on which every click raises. *)
Definition options_click_fails : Config :=
  {| dom := fun _ _ =>
       Ok (fun s => if String.eqb s quiz_option_sel then [1; 2]
                    else if String.eqb s trivia_option_sel then [3; 4]
                    else []);
     content := content blank; goto_ok := goto_ok blank;
     click_ok := fun _ => false; text := text blank; attr := attr blank;
     sub := sub blank; browsers := browsers blank;
     launch_ok := launch_ok blank |}.

(** A quiz whose options disappear after three clicks, with no completion
    marker. *)
Definition quiz_three : Config :=
  {| dom := fun _ k =>
       Ok (if Nat.ltb k 3 then only quiz_option_sel [1; 2; 3; 4]
           else fun _ => []);
     content := content blank; goto_ok := goto_ok blank;
     click_ok := click_ok blank; text := text blank; attr := attr blank;
     sub := sub blank; browsers := browsers blank;
     launch_ok := launch_ok blank |}.

(** A page showing both a quiz marker and a trivia marker. *)
Definition quiz_and_trivia : Config :=
  {| dom := fun _ _ =>
       Ok (fun s => if String.eqb s "#quizCompleteContainer" then [7]
                    else if String.eqb s ".wk_Circle" then [8; 9] else []);
     content := content blank; goto_ok := goto_ok blank;
     click_ok := click_ok blank; text := text blank; attr := attr blank;
     sub := sub blank; browsers := browsers blank;
     launch_ok := launch_ok blank |}.

(** The dashboard cannot be reached: every navigation times out. *)
Definition unreachable : Config :=
  {| dom := dom blank; content := content blank;
     goto_ok := fun _ => false;
     click_ok := click_ok blank; text := text blank; attr := attr blank;
     sub := sub blank; browsers := browsers blank;
     launch_ok := launch_ok blank |}.

(** A dashboard with two cards: element 1 is a pending task, element 2 a
    completed one.  Element 10 is the title of card 1, 11 its link, 20 the
    title of card 2, 21 its link and 22 its completion mark. *)
Definition dashboard : Config :=
  {| dom := fun _ _ => Ok (only "mee-card" [1; 2]);
     content := lit "Microsoft Rewards points";
     goto_ok := goto_ok blank;
     click_ok := click_ok blank;
     text := fun e =>
       match e with
       | 10 => Ok (lit "  Daily quiz ")
       | 20 => Ok (lit "Daily poll")
       | _ => Ok []
       end;
     attr := fun e name =>
       match e with
       | 11 => Some (lit "/quiz/1")
       | 21 => Some (lit "/poll/2")
       | _ => None
       end;
     sub := fun e sel =>
       match e with
       | 1 => if String.eqb sel card_title_sel then Some 10
              else if String.eqb sel "a[href]" then Some 11 else None
       | 2 => if String.eqb sel card_title_sel then Some 20
              else if String.eqb sel "a[href]" then Some 21
              else if String.eqb sel card_check_sel then Some 22 else None
       | _ => None
       end;
     browsers := browsers blank;
     launch_ok := launch_ok blank |}.

(** A page of plain links, for the alternative detector: link 1 is a task,
    link 2 has too short a text. *)
Definition links : Config :=
  {| dom := fun _ _ => Ok (only "a[href]" [1; 2]);
     content := content blank; goto_ok := goto_ok blank;
     click_ok := click_ok blank;
     text := fun e =>
       match e with
       | 1 => Ok (lit "Daily trivia +10 points")
       | _ => Ok (lit "Hi")
       end;
     attr := fun e name =>
       match e with
       | 1 => Some (lit "https://www.bing.com/trivia")
       | _ => Some (lit "/x")
       end;
     sub := sub blank; browsers := browsers blank;
     launch_ok := launch_ok blank |}.

(** Two activities; navigation to the first one times out. *)
Definition act1 : Activity := mkActivity (lit "First") [] (lit "/one") false.
Definition act2 : Activity := mkActivity (lit "Second") [] (lit "/two") false.

Definition first_times_out : Config :=
  {| dom := dom blank; content := content blank;
     goto_ok := fun target =>
       negb (startswith (lit "https://rewards.bing.com/one") target);
     click_ok := click_ok blank; text := text blank; attr := attr blank;
     sub := sub blank; browsers := browsers blank;
     launch_ok := launch_ok blank |}.

(** A sign-in page: a sign-in link, no user marker, no rewards content. *)
Definition signed_out : Config :=
  {| dom := fun _ _ => Ok (only login_signin_sel [5]);
     content := lit "Sign in to continue";
     goto_ok := goto_ok blank;
     click_ok := click_ok blank; text := text blank; attr := attr blank;
     sub := sub blank; browsers := browsers blank;
     launch_ok := launch_ok blank |}.

(** A machine on which the scan finds no browser. *)
Definition no_browser : Config :=
  {| dom := dom blank; content := content blank; goto_ok := goto_ok blank;
     click_ok := click_ok blank; text := text blank; attr := attr blank;
     sub := sub blank; browsers := [];
     launch_ok := launch_ok blank |}.

(** A poll with two options whose clicks succeed. *)
Definition poll_two : Config :=
  {| dom := fun _ _ => Ok (only poll_option_sel [1; 2]);
     content := content blank; goto_ok := goto_ok blank;
     click_ok := click_ok blank; text := text blank; attr := attr blank;
     sub := sub blank; browsers := browsers blank;
     launch_ok := launch_ok blank |}.

(** What the detectors find on [dashboard] and on [links]. *)
Definition dashboard_activities : list Activity :=
  [mkActivity (lit "Daily quiz") [] (lit "/quiz/1") false].

Definition links_activities : list Activity :=
  [mkActivity (lit "Daily trivia +10 points") (lit "+10")
     (lit "https://www.bing.com/trivia") false].

End Toy.

(* ------------------------------------------------------------------ *)
(** ** Observations on results and traces *)

(** The four activity types. *)
Definition activity_types : list string :=
  ["quiz"; "poll"; "trivia"; "click_only"].

(** What the detector promises of an activity it returns. *)
Definition well_formed (a : Activity) : bool :=
  negb (completed a) && truthy (url a) && Nat.leb 3 (List.length (title a)).

Definition is_option_click (e : Event) : bool :=
  match e with EvClick OptionElem _ => true | _ => false end.

(** Iterations that picked and clicked an option. *)
Definition click_iterations (tr : list Event) : nat :=
  List.length (filter is_option_click tr).

(** Every failed click of an option is followed by the delay of the same
    iteration: the exception did not leave the iteration. *)
Fixpoint clicks_swallowed (tr : list Event) : bool :=
  match tr with
  | [] => true
  | EvClick OptionElem false :: rest =>
      match rest with
      | EvDelay :: _ => clicks_swallowed rest
      | _ => false
      end
  | _ :: rest => clicks_swallowed rest
  end.

(** The trace ends with the event [e]. *)
Definition ends_with (e : Event) (tr : list Event) : Prop :=
  exists pre, tr = (pre ++ [e])%list.

Definition is_launch (e : Event) : bool :=
  match e with EvLaunch _ true => true | _ => false end.

Definition is_close (e : Event) : bool :=
  match e with EvClose _ => true | _ => false end.

(** A context was created and [close] was never called on it. *)
Definition context_left_open (tr : list Event) : bool :=
  existsb is_launch tr && negb (existsb is_close tr).

Section Observations.

Variable D : Driver.

(** The page state the classifier inspects: after the load wait and the
    settle delay. *)
Definition settled (w : World D) : World D :=
  sleep_uniform D 1500 3000 (world (_wait_for_page_load D 10000 w)).

(** In the page state [w], some selector of the group matches an element. *)
Definition marker_shown (w : World D) (sels : list string) : bool :=
  match page_dom D w with
  | Ok dom => existsb (fun sel => negb (is_nil (dom sel))) sels
  | Raise _ => false
  end.

(** Some selector of the group has a match in the snapshot. *)
Definition group_matches (dom : string -> list (Elem D)) (sels : list string)
  : bool :=
  existsb (fun sel => negb (is_nil (dom sel))) sels.

(** The classification rule in the words of the specification: the first of
    the four ordered groups with any match, else click_only. *)
Definition classify_spec (dom : string -> list (Elem D)) : string :=
  if group_matches dom quiz_selectors then "quiz"
  else if group_matches dom poll_selectors then "poll"
  else if group_matches dom trivia_selectors then "trivia"
  else if group_matches dom lightspeed_selectors then "quiz"
  else "click_only".

(** Every run of [m] leaves a trace satisfying [P k], a property of traces
    graded by a number. *)
Definition emits (P : nat -> list Event -> Prop) {A} (k : nat) (m : M D A)
  : Prop :=
  forall w, P k (trace (m w)).

(** [n] bounds the number of events of the kind [p]. *)
Definition at_most (p : Event -> bool) (n : nat) (tr : list Event) : Prop :=
  List.length (filter p tr) <= n.

(** The trace can be put in front of any trace in which failed clicks are
    swallowed. *)
Definition swallows (_ : nat) (tr : list Event) : Prop :=
  forall rest, clicks_swallowed rest = true ->
               clicks_swallowed (tr ++ rest) = true.

(** The event [ev] does not occur. *)
Definition absent (ev : Event) (_ : nat) (tr : list Event) : Prop :=
  ~ In ev tr.

(** Wherever [ev] occurs in the trace, nothing follows it: it occurs at most
    once, as the last event. *)
Definition only_last (ev : Event) (tr : list Event) : Prop :=
  forall pre post, tr = (pre ++ ev :: post)%list -> post = [].

(** Whenever [ev] occurs in a run of [m], the run stops there, nothing
    follows the event, and the result satisfies [V]. *)
Definition exits_at (ev : Event) {A} (V : Res A -> Prop) (m : M D A) : Prop :=
  forall w, In ev (trace (m w)) ->
            V (res (m w)) /\ ends_with ev (trace (m w)) /\
            only_last ev (trace (m w)).

Definition raises {A} (r : Res A) : Prop := is_ok r = false.

(** The state in which the activity loop takes up the next activity, after
    handling [act] from [w], the delay and the return to the dashboard. *)
Definition after_activity (act : Activity) (w : World D) : World D :=
  world (back_to_dashboard D
           (sleep_uniform D 2000 4000 (world (complete_activity D act w)))).

(** Whatever state the page is in, its DOM can be read, the selector
    [option_sel] matches some element and none of the selectors [hidden]
    matches any. *)
Definition always_offers (option_sel : string) (hidden : list string)
  : Prop :=
  forall w, exists dom,
    page_dom D w = Ok dom /\
    is_nil (dom option_sel) = false /\
    Forall (fun sel => dom sel = []) hidden.

(** Whenever [m] returns a value satisfying [Q], [close] was called on the
    context during the run. *)
Definition closing {A} (Q : A -> Prop) (m : M D A) : Prop :=
  forall w a, res (m w) = Ok a -> Q a -> existsb is_close (trace (m w)) = true.

End Observations.

Arguments settled {D} w.
Arguments marker_shown {D} w sels.
Arguments group_matches {D} dom sels.
Arguments classify_spec {D} dom.

(* ------------------------------------------------------------------ *)
(** ** Further observations: kinds of events, detection, login *)

(** Every event of the trace satisfies [phi]. *)
Definition all (phi : Event -> Prop) (_ : nat) (tr : list Event) : Prop :=
  Forall phi tr.

(** What a program does on the page it is given: queries, choices, clicks,
    delays, load waits and script evaluation. *)
Definition page_event (e : Event) : Prop :=
  match e with
  | EvQueryAll _ _ | EvChoice | EvClick _ _ | EvDelay | EvWaitLoad _
  | EvEvaluate _ => True
  | _ => False
  end.

(** The events of handling the activity [a]: its announcement, a navigation
    to its full URL, and page events. *)
Definition activity_event (a : Activity) (e : Event) : Prop :=
  match e with
  | EvActivity a' => a' = a
  | EvGoto target _ => target = full_url a
  | _ => page_event e
  end.

(** Events that do not touch an activity: no activity is opened, nothing is
    chosen or clicked, no script is evaluated. *)
Definition passive_event (e : Event) : Prop :=
  match e with
  | EvActivity _ | EvChoice | EvClick _ _ | EvEvaluate _ => False
  | _ => True
  end.

(** The events of scanning a page: queries, delays and load waits. *)
Definition query_event (e : Event) : Prop :=
  match e with
  | EvQueryAll _ _ | EvDelay | EvWaitLoad _ => True
  | _ => False
  end.

(** The events of the login part and of the end of the run. *)
Definition gate_event (e : Event) : Prop :=
  match e with
  | EvInput | EvGoto _ _ | EvDelay | EvClose _ => True
  | _ => False
  end.

(** The events of the activity loop. *)
Definition loop_event (e : Event) : Prop :=
  match e with
  | EvActivity _ | EvGoto _ _ => True
  | _ => page_event e
  end.

(** A launch, if the event is one, is on a directory
    [.../BingRewardsBot/User Data]. *)
Definition dedicated (e : Event) : Prop :=
  match e with
  | EvLaunch dir _ =>
      exists base, dir = path_div (path_div base "BingRewardsBot") "User Data"
  | _ => True
  end.

Definition is_activity (e : Event) : bool :=
  match e with EvActivity _ => true | _ => false end.

(** Activities opened during a run. *)
Definition opened (tr : list Event) : nat :=
  List.length (filter is_activity tr).

Definition is_input (e : Event) : bool :=
  match e with EvInput => true | _ => false end.

(** Whenever [m] returns a count, the count is at most the number of
    activities opened during the run. *)
Definition tally_within {D : Driver} (m : M D nat) : Prop :=
  forall w n, res (m w) = Ok n -> n <= opened (trace (m w)).

(** The three card selectors of [detect_activities], in the order they are
    tried. *)
Definition card_selectors : list string :=
  [ "mee-card"; "[class*='card'], [class*='Card']";
    "a[href*='daily'], a[href*='quiz'], a[href*='poll']" ].

Section Dashboard.

Variable U : Unicode.
Variable D : Driver.

(** The program logs nothing. *)
Definition silent {A} (m : M D A) : Prop := forall w, trace (m w) = [].

(** The page state [detect_activities] scans: after the load wait and the
    delay. *)
Definition dashboard_state (w : World D) : World D :=
  sleep_uniform D 2000 4000 (world (_wait_for_page_load D 10000 w)).

(** The matches of the first selector that has any, else nothing. *)
Fixpoint first_nonempty (dom : string -> list (Elem D)) (sels : list string)
  : list (Elem D) :=
  match sels with
  | [] => []
  | sel :: rest =>
      if is_nil (dom sel) then first_nonempty dom rest else dom sel
  end.

(** The three readings of the login check on a page whose DOM and content
    can be read: a user marker, the two keywords in the content, a sign-in
    element. *)
Definition user_marker (dom : string -> list (Elem D)) : bool :=
  negb (is_nil (dom login_user_sel)).

Definition rewards_content (content : pystr) : bool :=
  contains (lit "rewards") (lower U content)
  && (contains (lit "point") (lower U content)
      || contains (lit "poin") (lower U content)).

Definition sign_in_marker (dom : string -> list (Elem D)) : bool :=
  negb (is_nil (dom login_signin_sel)).

(** What the alternative detector promises beyond [well_formed]: a title of
    5 to 80 characters and a points label that is empty or a plus sign
    followed by digits. *)
Definition alt_shape (a : Activity) : Prop :=
  5 <= List.length (title a) <= 80 /\
  (points a = [] \/
   (startswith (lit "+") (points a) = true /\
    str_isdigit U (from1 (points a)) = true)).

(** The base directory of [_get_bot_data_dir]: [LOCALAPPDATA] when set, else
    [home/AppData/Local]. *)
Definition localappdata_of (w : World D) (home : pystr) : Path :=
  match environ_get D "LOCALAPPDATA" w with
  | Some s => [s]
  | None => path_div (path_div [home] "AppData") "Local"
  end.

End Dashboard.

Arguments first_nonempty {D} dom sels.
Arguments user_marker {D} dom.
Arguments sign_in_marker {D} dom.
Arguments dashboard_state {D} w.
Arguments localappdata_of {D} w home.

(* ------------------------------------------------------------------ *)
(** ** Browser discovery: [browser_utils.py]

    The scan reads the environment and the file system and changes
    neither; they are a snapshot [System].  [get_browser_profiles], which
    parses the browsers' JSON files, is a field of the snapshot: the scan
    only stores what it returns. *)

Module BrowserUtils.

Record System := {
  (** [os.name == 'nt'] *)
  os_nt : bool;
  (** [os.environ.get] *)
  environ : string -> option pystr;
  (** [Path.home()] *)
  home : Res pystr;
  (** [Path.exists()], which raises the [OSError]s it does not take for
      absence, such as [PermissionError] *)
  path_exists : Path -> Res bool;
  (** [shutil.which] *)
  which : string -> option pystr;
  (** [str(path)] *)
  path_str : Path -> pystr;
  (** [get_browser_profiles]: pairs of id and name *)
  get_browser_profiles : string -> Res (list (pystr * pystr))
}.

(** An entry of [BROWSERS]. *)
Record BrowserInfo := {
  name : string;
  exe : string;
  app_paths : list string;
  user_data : list string
}.

Definition BROWSERS : list (string * BrowserInfo) :=
  [ ("edge",
     {| name := "Microsoft Edge"; exe := "msedge.exe";
        app_paths := [ "Microsoft/Edge/Application";
                       "Microsoft/Edge Beta/Application";
                       "Microsoft/Edge Dev/Application" ];
        user_data := [ "Microsoft/Edge/User Data" ] |});
    ("chrome",
     {| name := "Google Chrome"; exe := "chrome.exe";
        app_paths := [ "Google/Chrome/Application" ];
        user_data := [ "Google/Chrome/User Data" ] |});
    ("brave",
     {| name := "Brave Browser"; exe := "brave.exe";
        app_paths := [ "BraveSoftware/Brave-Browser/Application" ];
        user_data := [ "BraveSoftware/Brave-Browser/User Data" ] |}) ].

(** An entry of the result of [scan_system]. *)
Record Found := {
  found_name : string;
  executable : pystr;
  profiles : list (pystr * pystr)
}.

Fixpoint lookup {V} (k : string) (d : list (string * V)) : option V :=
  match d with
  | [] => None
  | (k', v) :: r => if String.eqb k k' then Some v else lookup k r
  end.

Section WithSystem.

Variable S : System.

(** [get_local_appdata()].  The default of [os.environ.get] is evaluated
    before the lookup. *)
Definition get_local_appdata : Res Path :=
  match home S with
  | Raise e => Raise e
  | Ok h =>
      if os_nt S then
        Ok (match environ S "LOCALAPPDATA" with
            | Some s => [s]
            | None => path_div (path_div [h] "AppData") "Local"
            end)
      else Ok (path_div [h] ".config")
  end.

(** [if os.environ.get(var): paths.append(Path(os.environ[var]))] *)
Definition env_dir (var : string) : list Path :=
  match environ S var with
  | Some s => if truthy s then [[s]] else []
  | None => []
  end.

(** [get_program_files()] *)
Definition get_program_files : list Path :=
  (env_dir "ProgramFiles" ++ env_dir "ProgramFiles(x86)")%list.

(** [for app_path in app_paths: exe_path = base_dir / app_path / exe_name;
    if exe_path.exists(): return exe_path] *)
Fixpoint try_app_paths (base_dir : Path) (exe_name : string)
    (apps : list string) : Res (option Path) :=
  match apps with
  | [] => Ok None
  | app_path :: rest =>
      let exe_path := path_div (path_div base_dir app_path) exe_name in
      match path_exists S exe_path with
      | Raise e => Raise e
      | Ok true => Ok (Some exe_path)
      | Ok false => try_app_paths base_dir exe_name rest
      end
  end.

(** [for base_dir in search_dirs: ...] *)
Fixpoint try_dirs (dirs : list Path) (exe_name : string) (apps : list string)
  : Res (option Path) :=
  match dirs with
  | [] => Ok None
  | base_dir :: rest =>
      match try_app_paths base_dir exe_name apps with
      | Raise e => Raise e
      | Ok (Some p) => Ok (Some p)
      | Ok None => try_dirs rest exe_name apps
      end
  end.

(** [find_browser_executable(browser_key)] *)
Definition find_browser_executable (browser_key : string)
  : Res (option Path) :=
  match lookup browser_key BROWSERS with
  | None => Ok None
  | Some browser_info =>
      match get_local_appdata with
      | Raise e => Raise e
      | Ok local =>
          let search_dirs := (get_program_files ++ [local])%list in
          match try_dirs search_dirs (exe browser_info)
                  (app_paths browser_info) with
          | Raise e => Raise e
          | Ok (Some p) => Ok (Some p)
          | Ok None =>
              match which S (exe browser_info) with
              | Some s => if truthy s then Ok (Some [s]) else Ok None
              | None => Ok None
              end
          end
      end
  end.

(** The loop of [scan_system] over the entries of [BROWSERS]. *)
Fixpoint scan_entries (entries : list (string * BrowserInfo))
    (results : list (string * Found)) : Res (list (string * Found)) :=
  match entries with
  | [] => Ok results
  | (key, info) :: rest =>
      match find_browser_executable key with
      | Raise e => Raise e
      | Ok None => scan_entries rest results
      | Ok (Some exe_path) =>
          match get_browser_profiles S key with
          | Raise e => Raise e
          | Ok profs =>
              scan_entries rest
                (results ++ [(key, {| found_name := name info;
                                      executable := path_str S exe_path;
                                      profiles := profs |})])%list
          end
      end
  end.

(** [scan_system()] *)
Definition scan_system : Res (list (string * Found)) :=
  scan_entries BROWSERS [].

(** The places [find_browser_executable] looks at for an entry, in the
    order it looks at them. *)
Definition candidates (dirs : list Path) (info : BrowserInfo) : list Path :=
  flat_map (fun base_dir =>
              map (fun app_path =>
                     path_div (path_div base_dir app_path) (exe info))
                  (app_paths info)) dirs.

(** The first of the places [cs] that exists, looked for in order; an
    existence check that raises ends the search. *)
Fixpoint first_existing (cs : list Path) : Res (option Path) :=
  match cs with
  | [] => Ok None
  | c :: rest =>
      match path_exists S c with
      | Raise e => Raise e
      | Ok true => Ok (Some c)
      | Ok false => first_existing rest
      end
  end.

End WithSystem.

(** What [run_daily_activities] reads of a scan: key and executable. *)
Definition executables (r : list (string * Found)) : list (string * pystr) :=
  map (fun kv => (fst kv, executable (snd kv))) r.

(** A Windows machine with Edge under Program Files and Chrome on the
    PATH only. *)
Definition sample : System :=
  {| os_nt := true;
     environ := fun var =>
       if String.eqb var "ProgramFiles" then Some (lit "C:\Program Files")
       else if String.eqb var "LOCALAPPDATA"
            then Some (lit "C:\Users\bot\AppData\Local")
            else None;
     home := Ok (lit "C:\Users\bot");
     path_exists := fun p =>
       match p with
       | [_; app; _] =>
           Ok (startswith (lit "Microsoft/Edge/Application") app)
       | _ => Ok false
       end;
     which := fun e =>
       if String.eqb e "chrome.exe" then Some (lit "C:\tools\chrome.exe")
       else None;
     path_str := fun p => List.concat p;
     get_browser_profiles := fun _ => Ok [] |}.

(** The same machine with Edge Beta alone, installed for the user under
    the local application data, and an [msedge.exe] of another origin on
    the PATH. *)
Definition user_install : System :=
  {| os_nt := true;
     environ := environ sample;
     home := home sample;
     path_exists := fun p =>
       match p with
       | [base; app; _] =>
           Ok (startswith (lit "C:\Users") base &&
               startswith (lit "Microsoft/Edge Beta") app)
       | _ => Ok false
       end;
     which := fun e =>
       if String.eqb e "msedge.exe" then Some (lit "C:\tools\msedge.exe")
       else None;
     path_str := path_str sample;
     get_browser_profiles := get_browser_profiles sample |}.

End BrowserUtils.

(* ------------------------------------------------------------------ *)
(** ** The monad: basic facts *)

Section MonadFacts.

Variable D : Driver.

Lemma bind_ok A B (m : M D A) (f : A -> M D B) w a :
  res (m w) = Ok a ->
  bind m f w =
  mkOut (res (f a (world (m w)))) (world (f a (world (m w))))
        (trace (m w) ++ trace (f a (world (m w)))).
Proof. intros H. unfold bind. rewrite H. reflexivity. Qed.

Lemma bind_raise A B (m : M D A) (f : A -> M D B) w e :
  res (m w) = Raise e ->
  bind m f w = mkOut (Raise e) (world (m w)) (trace (m w)).
Proof. intros H. unfold bind. rewrite H. reflexivity. Qed.

Lemma try_except_ok A (m : M D A) h w a :
  res (m w) = Ok a -> try_except m h w = m w.
Proof. intros H. unfold try_except. rewrite H. reflexivity. Qed.

Lemma try_except_raise A (m : M D A) h w e :
  res (m w) = Raise e ->
  try_except m h w =
  mkOut (res (h e (world (m w)))) (world (h e (world (m w))))
        (trace (m w) ++ trace (h e (world (m w)))).
Proof. intros H. unfold try_except. rewrite H. reflexivity. Qed.

(** A [try] whose handler returns a value never raises. *)
Lemma try_except_total A (m : M D A) (v : A) w :
  exists a, res (try_except m (fun _ => ret v) w) = Ok a.
Proof.
  unfold try_except. destruct (res (m w)) eqn:E.
  - exists a. exact E.
  - exists v. reflexivity.
Qed.

Lemma try_except_caught A (m : M D A) (v : A) w e :
  res (m w) = Raise e -> res (try_except m (fun _ => ret v) w) = Ok v.
Proof. intros H. unfold try_except. rewrite H. reflexivity. Qed.

End MonadFacts.

(* ------------------------------------------------------------------ *)
(** ** Results and traces of composed programs *)

Section Equations.

Variable D : Driver.

Lemma res_bind A B (m : M D A) (f : A -> M D B) w :
  res (bind m f w) =
  match res (m w) with
  | Ok a => res (f a (world (m w)))
  | Raise e => Raise e
  end.
Proof. unfold bind. destruct (res (m w)); reflexivity. Qed.

Lemma trace_bind A B (m : M D A) (f : A -> M D B) w :
  trace (bind m f w) =
  (trace (m w) ++
   match res (m w) with
   | Ok a => trace (f a (world (m w)))
   | Raise _ => []
   end)%list.
Proof.
  unfold bind. destruct (res (m w)); cbn; [reflexivity|].
  now rewrite app_nil_r.
Qed.

Lemma world_bind A B (m : M D A) (f : A -> M D B) w :
  world (bind m f w) =
  match res (m w) with
  | Ok a => world (f a (world (m w)))
  | Raise _ => world (m w)
  end.
Proof. unfold bind. destruct (res (m w)); reflexivity. Qed.

Lemma res_try A (m : M D A) h w :
  res (try_except m h w) =
  match res (m w) with
  | Ok a => Ok a
  | Raise e => res (h e (world (m w)))
  end.
Proof. unfold try_except. destruct (res (m w)) eqn:E; cbn; auto. Qed.

Lemma trace_try A (m : M D A) h w :
  trace (try_except m h w) =
  (trace (m w) ++
   match res (m w) with
   | Ok _ => []
   | Raise e => trace (h e (world (m w)))
   end)%list.
Proof.
  unfold try_except. destruct (res (m w)) eqn:E; cbn; [|reflexivity].
  now rewrite app_nil_r.
Qed.

(** Inversion of a successful [bind]. *)
Lemma bind_inv A B (m : M D A) (f : A -> M D B) w b :
  res (bind m f w) = Ok b ->
  exists a, res (m w) = Ok a /\ res (f a (world (m w))) = Ok b.
Proof.
  rewrite res_bind. destruct (res (m w)) as [a|e]; [|discriminate].
  intros H. exists a. auto.
Qed.

Lemma res_query_selector_all sel w :
  res (query_selector_all D sel w) =
  match page_dom D w with Ok dom => Ok (dom sel) | Raise e => Raise e end.
Proof. unfold query_selector_all. destruct (page_dom D w); reflexivity. Qed.

Lemma world_query_selector_all sel w :
  world (query_selector_all D sel w) = w.
Proof. unfold query_selector_all. destruct (page_dom D w); reflexivity. Qed.

Lemma trace_query_selector_all sel w :
  trace (query_selector_all D sel w) =
  match page_dom D w with
  | Ok dom => [EvQueryAll sel (List.length (dom sel))]
  | Raise _ => []
  end.
Proof. unfold query_selector_all. destruct (page_dom D w); reflexivity. Qed.

Lemma trace_call A (f : World D -> Res A * World D) ev w :
  trace (call D f ev w) = [ev (is_ok (fst (f w)))].
Proof. unfold call. destruct (f w). reflexivity. Qed.

Lemma res_call A (f : World D -> Res A * World D) ev w :
  res (call D f ev w) = fst (f w).
Proof. unfold call. destruct (f w). reflexivity. Qed.

(** The guarded click never raises and logs exactly the click. *)
Lemma res_click_guarded c w : res (click_guarded D c w) = Ok tt.
Proof.
  unfold click_guarded. rewrite res_try. unfold click.
  rewrite res_call. destruct (fst (el_click D c w)) as [[]|]; reflexivity.
Qed.

Lemma trace_click_guarded c w :
  exists ok, trace (click_guarded D c w) = [EvClick OptionElem ok].
Proof.
  unfold click_guarded. rewrite trace_try. unfold click.
  rewrite trace_call, res_call.
  exists (is_ok (fst (el_click D c w))).
  destruct (fst (el_click D c w)); reflexivity.
Qed.

Lemma res_wait_for_page_load t w : res (_wait_for_page_load D t w) = Ok tt.
Proof.
  unfold _wait_for_page_load. rewrite res_try, res_bind.
  destruct (res (call D (page_wait_for_load_state D t) EvWaitLoad w));
    reflexivity.
Qed.

End Equations.

(* ------------------------------------------------------------------ *)
(** ** Trace properties that compose

    [P k t] is a property of a trace [t] graded by a number [k]; it holds of
    the empty trace and is additive over concatenation. *)

Section Graded.

Variable D : Driver.
Variable P : nat -> list Event -> Prop.
Hypothesis P_nil : forall k, P k [].
Hypothesis P_app : forall a b t1 t2, P a t1 -> P b t2 -> P (a + b) (t1 ++ t2)%list.

Local Abbreviation emits := (emits P).

Lemma emits_ret A (a : A) k : emits k (ret (D:=D) a).
Proof. intros w. apply P_nil. Qed.

Lemma emits_raise A e k : emits k (raise (D:=D) (A:=A) e).
Proof. intros w. apply P_nil. Qed.

Lemma emits_read A (f : World D -> Res A) k : emits k (read D f).
Proof. intros w. apply P_nil. Qed.

Lemma emits_bind A B (m : M D A) (f : A -> M D B) a b k :
  emits a m -> (forall x, emits b (f x)) -> a + b = k -> emits k (bind m f).
Proof.
  intros Hm Hf <- w. rewrite trace_bind. apply P_app; [apply Hm|].
  destruct (res (m w)); [apply Hf | apply P_nil].
Qed.

Lemma emits_try A (m : M D A) h a b k :
  emits a m -> (forall e, emits b (h e)) -> a + b = k ->
  emits k (try_except m h).
Proof.
  intros Hm Hh <- w. rewrite trace_try. apply P_app; [apply Hm|].
  destruct (res (m w)); [apply P_nil | apply Hh].
Qed.

Lemma emits_call A (f : World D -> Res A * World D) ev k :
  (forall b, P k [ev b]) -> emits k (call D f ev).
Proof. intros H w. rewrite trace_call. apply H. Qed.

Lemma emits_query_selector sel k : emits k (query_selector D sel).
Proof. apply emits_read. Qed.

Lemma emits_query_selector_all sel k :
  (forall n, P k [EvQueryAll sel n]) -> emits k (query_selector_all D sel).
Proof.
  intros H w. rewrite trace_query_selector_all.
  destruct (page_dom D w); [apply H | apply P_nil].
Qed.

Lemma emits_or_else_query first sel k :
  (forall n, P k [EvQueryAll sel n]) -> emits k (or_else_query D first sel).
Proof.
  intros H. unfold or_else_query. destruct (is_nil first).
  - now apply emits_query_selector_all.
  - apply emits_ret.
Qed.

Lemma emits_random_delay a b k :
  P k [EvDelay] -> emits k (_random_delay D a b).
Proof. intros H w. exact H. Qed.

Lemma emits_random_choice seq k :
  P k [EvChoice] -> emits k (random_choice D seq).
Proof.
  intros H. destruct seq as [|x seq]; [apply emits_raise|].
  intros w. unfold random_choice.
  destruct (randbelow D (List.length (x :: seq)) w). exact H.
Qed.

End Graded.

(* ------------------------------------------------------------------ *)
(** ** Handlers: iteration bounds *)

Section Bounds.

Variable D : Driver.
Variable p : Event -> bool.

Lemma at_most_nil k : at_most p k [].
Proof. unfold at_most. cbn. lia. Qed.

Lemma at_most_app a b t1 t2 :
  at_most p a t1 -> at_most p b t2 -> at_most p (a + b) (t1 ++ t2)%list.
Proof.
  unfold at_most. intros H1 H2. rewrite filter_app, length_app. lia.
Qed.

Lemma at_most_one e k : p e = false \/ 1 <= k -> at_most p k [e].
Proof.
  unfold at_most. cbn. destruct (p e); cbn; intros [H|H];
    try discriminate; lia.
Qed.

End Bounds.

Create HintDb bounds.
#[local] Hint Resolve at_most_nil at_most_app : bounds.

Ltac bound_side :=
  first [ solve [auto with bounds]
        | solve [intros; apply at_most_one; left; reflexivity] ].

Ltac bound_step :=
  first
    [ apply emits_ret; bound_side
    | apply emits_query_selector; bound_side
    | apply emits_query_selector_all; bound_side
    | apply emits_or_else_query; bound_side
    | apply emits_random_delay; bound_side
    | apply emits_random_choice; bound_side ].

Section QuizBounds.

Variable D : Driver.

Lemma click_guarded_one c :
  emits (at_most is_option_click) 1 (click_guarded D c).
Proof.
  intros w. destruct (trace_click_guarded D c w) as [ok ->].
  apply at_most_one. right. lia.
Qed.

(** One more iteration, one more click at most. *)
Lemma iteration_tail_bound n options (complete_sel : string)
    (loop : M D (option bool)) :
  emits (at_most is_option_click) n loop ->
  emits (at_most is_option_click) (S n)
    (choice <- random_choice D options ;;
     click_guarded D choice ;;;
     _random_delay D 1500 3000 ;;;
     complete <- query_selector D complete_sel ;;
     if is_some complete then ret (Some true) else loop).
Proof.
  intros IH.
  eapply emits_bind with (a := 0) (b := S n); auto with bounds.
  { bound_step. }
  intros choice.
  eapply emits_bind with (a := 1) (b := n); auto with bounds.
  { apply click_guarded_one. }
  intros _.
  eapply emits_bind with (a := 0) (b := n); auto with bounds.
  { bound_step. }
  intros _.
  eapply emits_bind with (a := 0) (b := n); auto with bounds.
  { bound_step. }
  intros complete. destruct (is_some complete); [bound_step | exact IH].
Qed.

Lemma quiz_loop_bound n :
  emits (at_most is_option_click) n (quiz_loop D n).
Proof.
  induction n as [|n IH]; cbn [quiz_loop].
  - bound_step.
  - eapply emits_bind with (a := 0) (b := S n); auto with bounds.
    { bound_step. }
    intros options.
    eapply emits_bind with (a := 0) (b := S n); auto with bounds.
    { bound_step. }
    intros options'. destruct (is_nil options'); [bound_step|].
    now apply iteration_tail_bound.
Qed.

Lemma trivia_loop_bound n :
  emits (at_most is_option_click) n (trivia_loop D n).
Proof.
  induction n as [|n IH]; cbn [trivia_loop].
  - bound_step.
  - eapply emits_bind with (a := 0) (b := S n); auto with bounds.
    { bound_step. }
    intros options. destruct (is_nil options); [bound_step|].
    now apply iteration_tail_bound.
Qed.

Lemma handle_quiz_bound :
  emits (at_most is_option_click) 20 (handle_quiz D).
Proof.
  unfold handle_quiz, handle_quiz_body.
  eapply emits_try with (a := 20) (b := 0); auto with bounds;
    [|intros; bound_step].
  eapply emits_bind with (a := 0) (b := 20); auto with bounds.
  { bound_step. }
  intros start_btn.
  eapply emits_bind with (a := 0) (b := 20); auto with bounds.
  { destruct start_btn; [|bound_step].
    eapply emits_bind with (a := 0) (b := 0); auto with bounds.
    - apply emits_call; auto with bounds.
      intros b. apply at_most_one. left. reflexivity.
    - intros _. bound_step. }
  intros _.
  eapply emits_bind with (a := 20) (b := 0); auto with bounds.
  { apply quiz_loop_bound. }
  intros r. destruct r; cbn [after_loop]; bound_step.
Qed.

Lemma handle_trivia_bound :
  emits (at_most is_option_click) 15 (handle_trivia D).
Proof.
  unfold handle_trivia, handle_trivia_body.
  eapply emits_try with (a := 15) (b := 0); auto with bounds;
    [|intros; bound_step].
  eapply emits_bind with (a := 15) (b := 0); auto with bounds.
  { apply trivia_loop_bound. }
  intros r. destruct r; cbn [after_loop]; bound_step.
Qed.

Lemma handle_poll_bound :
  emits (at_most is_option_click) 1 (handle_poll D).
Proof.
  unfold handle_poll, handle_poll_body.
  eapply emits_try with (a := 1) (b := 0); auto with bounds;
    [|intros; bound_step].
  eapply emits_bind with (a := 0) (b := 1); auto with bounds.
  { bound_step. }
  intros options.
  eapply emits_bind with (a := 0) (b := 1); auto with bounds.
  { bound_step. }
  intros options'. destruct (is_nil options'); [bound_step|].
  eapply emits_bind with (a := 0) (b := 1); auto with bounds.
  { bound_step. }
  intros choice.
  eapply emits_bind with (a := 1) (b := 0); auto with bounds.
  { apply emits_call; auto with bounds.
    intros b. apply at_most_one. right. lia. }
  intros _.
  eapply emits_bind with (a := 0) (b := 0); auto with bounds.
  { bound_step. }
  intros _. bound_step.
Qed.

(** C5. Each handler respects its iteration bound: in every run, against
    every driver and from every state, the quiz handler picks and clicks an
    option at most 20 times, the trivia handler at most 15 times and the poll
    handler at most once. *)
Theorem handler_iteration_bounds (w : World D) :
  click_iterations (trace (handle_quiz D w)) <= 20 /\
  click_iterations (trace (handle_trivia D w)) <= 15 /\
  click_iterations (trace (handle_poll D w)) <= 1.
Proof.
  repeat split.
  - apply handle_quiz_bound.
  - apply handle_trivia_bound.
  - apply handle_poll_bound.
Qed.

End QuizBounds.

(* ------------------------------------------------------------------ *)
(** ** Handlers: where a run stops *)

Section Exits.

Variable D : Driver.
Variable ev : Event.

Lemma absent_nil k : absent ev k [].
Proof. intros []. Qed.

Lemma absent_app a b t1 t2 :
  absent ev a t1 -> absent ev b t2 -> absent ev (a + b) (t1 ++ t2)%list.
Proof.
  unfold absent. intros H1 H2 H. apply in_app_or in H. tauto.
Qed.

Lemma absent_one e k : e <> ev -> absent ev k [e].
Proof. intros H [E|[]]. contradiction. Qed.

Lemma ends_with_app t1 t2 : ends_with ev t2 -> ends_with ev (t1 ++ t2)%list.
Proof.
  intros [pre ->]. exists (t1 ++ pre)%list. now rewrite app_assoc.
Qed.

Lemma only_last_after t1 t2 :
  ~ In ev t1 -> only_last ev t2 -> only_last ev (t1 ++ t2)%list.
Proof.
  intros Hno H2. induction t1 as [|x t1 IH]; [exact H2|].
  intros pre post E. destruct pre as [|y pre]; cbn in E.
  - inversion E; subst. exfalso. apply Hno. now left.
  - inversion E; subst. apply IH with (pre := pre); [|assumption].
    intros Hin. apply Hno. now right.
Qed.

Lemma only_last_single : only_last ev [ev].
Proof.
  intros pre post E. destruct pre as [|y pre]; cbn in E.
  - now inversion E.
  - inversion E. now destruct pre.
Qed.

(** A prefix in which [ev] does not occur. *)
Lemma exits_after A B (m : M D A) (f : A -> M D B) V :
  emits (absent ev) 0 m -> (forall a, exits_at ev V (f a)) ->
  exits_at ev V (bind m f).
Proof.
  intros Hm Hf w. rewrite trace_bind, res_bind. intros H.
  apply in_app_or in H. destruct H as [H|H]; [now apply Hm in H|].
  destruct (res (m w)) as [a|e]; [|destruct H].
  destruct (Hf a _ H) as (HV & HE & HO). split; [exact HV|]. split.
  - now apply ends_with_app.
  - apply only_last_after; [apply Hm | exact HO].
Qed.

(** A suffix that logs nothing. *)
Lemma exits_before A B (m : M D A) (f : A -> M D B) (V' : Res A -> Prop) V :
  exits_at ev V' m ->
  (forall a w, trace (f a w) = []) ->
  (forall a w, V' (Ok a) -> V (res (f a w))) ->
  (forall e, V' (Raise e) -> V (Raise e)) ->
  exits_at ev V (bind m f).
Proof.
  intros Hm Hnil Hok Hraise w. rewrite trace_bind, res_bind. intros H.
  assert (Ht : In ev (trace (m w))).
  { apply in_app_or in H. destruct H as [H|H]; [exact H|].
    destruct (res (m w)); [now rewrite Hnil in H | destruct H]. }
  destruct (Hm w Ht) as (HV & HE & HO). split; [|split].
  - destruct (res (m w)); [now apply Hok | now apply Hraise].
  - destruct (res (m w)); [rewrite Hnil|]; now rewrite app_nil_r.
  - destruct (res (m w)); [rewrite Hnil|]; now rewrite app_nil_r.
Qed.

Lemma exits_ret A (a : A) V : exits_at ev V (ret (D:=D) a).
Proof. intros w []. Qed.

(** A handler boundary that turns an exception into the value [v]. *)
Lemma exits_try A (m : M D A) (v : A) (V' V : Res A -> Prop) :
  exits_at ev V' m ->
  (forall a, V' (Ok a) -> V (Ok a)) ->
  (forall e, V' (Raise e) -> V (Ok v)) ->
  exits_at ev V (try_except m (fun _ => ret v)).
Proof.
  intros Hm Hok Hraise w. rewrite trace_try, res_try. intros H.
  assert (Ht : In ev (trace (m w))).
  { apply in_app_or in H. destruct H as [H|H]; [exact H|].
    destruct (res (m w)); destruct H. }
  destruct (Hm w Ht) as (HV & HE & HO). split; [|split].
  - destruct (res (m w)); [now apply Hok | now apply (Hraise e)].
  - destruct (res (m w)); cbn; now rewrite app_nil_r.
  - destruct (res (m w)); cbn; now rewrite app_nil_r.
Qed.

End Exits.

Create HintDb absents.
#[local] Hint Resolve absent_nil absent_app : absents.

Ltac absent_side :=
  first [ solve [auto with absents]
        | solve [intros; apply absent_one; discriminate] ].

Ltac absent_step :=
  first
    [ apply emits_ret; absent_side
    | apply emits_query_selector; absent_side
    | apply emits_query_selector_all; absent_side
    | apply emits_or_else_query; absent_side
    | apply emits_random_delay; absent_side
    | apply emits_random_choice; absent_side
    | apply emits_call; absent_side ].

Section EmptyOptions.

Variable D : Driver.

(** The query whose empty answer ends the loop: with an empty answer the
    continuation stops at once with [v]; with any other answer the event is
    the continuation's affair. *)
Lemma exits_on_empty_query A sel (f : list (Elem D) -> M D A) (v : A) :
  (forall w, f [] w = mkOut (Ok v) w []) ->
  (forall x options, exits_at (EvQueryAll sel 0) (eq (Ok v)) (f (x :: options))) ->
  exits_at (EvQueryAll sel 0) (eq (Ok v)) (bind (query_selector_all D sel) f).
Proof.
  intros Hnil Hcons w. rewrite trace_bind, res_bind.
  rewrite res_query_selector_all, trace_query_selector_all,
    world_query_selector_all.
  destruct (page_dom D w) as [dom|e]; [|intros []].
  destruct (dom sel) as [|x options] eqn:E.
  - rewrite Hnil. cbn. intros _. split; [reflexivity|]. split.
    + now exists [].
    + apply only_last_single.
  - cbn [List.length]. intros H.
    assert (Hno : ~ In (EvQueryAll sel 0)
                    [EvQueryAll sel (S (List.length options))]).
    { intros [E'|[]]. discriminate. }
    apply in_app_or in H. destruct H as [H|H]; [contradiction|].
    destruct (Hcons x options w H) as (HV & HE & HO).
    split; [exact HV|]. split.
    + now apply ends_with_app.
    + now apply only_last_after.
Qed.

Lemma click_guarded_absent ev c :
  (forall ok, EvClick OptionElem ok <> ev) ->
  emits (absent ev) 0 (click_guarded D c).
Proof.
  intros H w. destruct (trace_click_guarded D c w) as [ok ->].
  now apply absent_one.
Qed.

(** After the options were found, nothing of the iteration is a query for
    options. *)
Lemma iteration_tail_exits sel options (complete_sel : string)
    (loop : M D (option bool)) :
  exits_at (EvQueryAll sel 0) (eq (Ok None)) loop ->
  exits_at (EvQueryAll sel 0) (eq (Ok None))
    (choice <- random_choice D options ;;
     click_guarded D choice ;;;
     _random_delay D 1500 3000 ;;;
     complete <- query_selector D complete_sel ;;
     if is_some complete then ret (Some true) else loop).
Proof.
  intros IH.
  apply exits_after; [absent_step|]. intros choice.
  apply exits_after; [apply click_guarded_absent; discriminate|]. intros _.
  apply exits_after; [absent_step|]. intros _.
  apply exits_after; [absent_step|]. intros complete.
  destruct (is_some complete); [apply exits_ret | exact IH].
Qed.

Lemma quiz_loop_exits n :
  exits_at (EvQueryAll quiz_generic_sel 0) (eq (Ok None)) (quiz_loop D n).
Proof.
  induction n as [|n IH]; cbn [quiz_loop]; [apply exits_ret|].
  apply exits_after; [absent_step|]. intros options.
  unfold or_else_query. destruct options as [|x options]; cbn [is_nil].
  - apply exits_on_empty_query; [reflexivity|].
    intros y options. cbn [is_nil]. now apply iteration_tail_exits.
  - apply exits_after; [absent_step|]. intros options'.
    destruct (is_nil options'); [apply exits_ret|].
    now apply iteration_tail_exits.
Qed.

Lemma trivia_loop_exits n :
  exits_at (EvQueryAll trivia_option_sel 0) (eq (Ok None)) (trivia_loop D n).
Proof.
  induction n as [|n IH]; cbn [trivia_loop]; [apply exits_ret|].
  apply exits_on_empty_query; [reflexivity|].
  intros y options. cbn [is_nil]. now apply iteration_tail_exits.
Qed.

Lemma after_loop_silent (r : option bool) (w : World D) :
  trace (after_loop r (ret (D:=D) true) w) = [].
Proof. destruct r; reflexivity. Qed.

Lemma handle_quiz_exits :
  exits_at (EvQueryAll quiz_generic_sel 0) (eq (Ok true)) (handle_quiz D).
Proof.
  unfold handle_quiz, handle_quiz_body.
  apply exits_try with (V' := eq (Ok true)); [|auto|discriminate].
  apply exits_after; [absent_step|]. intros start_btn.
  apply exits_after.
  { destruct start_btn; [|absent_step].
    eapply emits_bind with (a := 0) (b := 0); auto with absents.
    - absent_step.
    - intros _. absent_step. }
  intros _.
  apply exits_before with (V' := eq (Ok None)).
  - apply quiz_loop_exits.
  - intros. apply after_loop_silent.
  - intros a w E. now inversion E.
  - discriminate.
Qed.

Lemma handle_trivia_exits :
  exits_at (EvQueryAll trivia_option_sel 0) (eq (Ok true)) (handle_trivia D).
Proof.
  unfold handle_trivia, handle_trivia_body.
  apply exits_try with (V' := eq (Ok true)); [|auto|discriminate].
  apply exits_before with (V' := eq (Ok None)).
  - apply trivia_loop_exits.
  - intros. apply after_loop_silent.
  - intros a w E. now inversion E.
  - discriminate.
Qed.

Lemma handle_poll_exits :
  exits_at (EvQueryAll poll_broad_sel 0) (eq (Ok false)) (handle_poll D).
Proof.
  unfold handle_poll, handle_poll_body.
  apply exits_try with (V' := eq (Ok false)); [|auto|discriminate].
  apply exits_after; [absent_step|]. intros options.
  unfold or_else_query. destruct options as [|x options]; cbn [is_nil].
  - apply exits_on_empty_query; [reflexivity|].
    intros y options. cbn [is_nil].
    repeat (apply exits_after; [absent_step|]; intros ?).
    apply exits_ret.
  - apply exits_after; [absent_step|]. intros options'.
    destruct (is_nil options'); [apply exits_ret|].
    repeat (apply exits_after; [absent_step|]; intros ?).
    apply exits_ret.
Qed.

(** C1 (amended). When an iteration finds zero option elements, the quiz
    handler (both its option query and its generic fallback empty) and the
    trivia handler exit their loop there and return true: the empty query is
    the last thing the handler does, and it happens once.  The poll handler,
    which has a single choice and no loop, stops there and returns false. *)
Theorem no_options_exit (w : World D) :
  (In (EvQueryAll quiz_generic_sel 0) (trace (handle_quiz D w)) ->
   res (handle_quiz D w) = Ok true /\
   ends_with (EvQueryAll quiz_generic_sel 0) (trace (handle_quiz D w)) /\
   only_last (EvQueryAll quiz_generic_sel 0) (trace (handle_quiz D w))) /\
  (In (EvQueryAll trivia_option_sel 0) (trace (handle_trivia D w)) ->
   res (handle_trivia D w) = Ok true /\
   ends_with (EvQueryAll trivia_option_sel 0) (trace (handle_trivia D w)) /\
   only_last (EvQueryAll trivia_option_sel 0) (trace (handle_trivia D w))) /\
  (In (EvQueryAll poll_broad_sel 0) (trace (handle_poll D w)) ->
   res (handle_poll D w) = Ok false /\
   ends_with (EvQueryAll poll_broad_sel 0) (trace (handle_poll D w)) /\
   only_last (EvQueryAll poll_broad_sel 0) (trace (handle_poll D w))).
Proof.
  split; [|split]; intros H.
  - destruct (handle_quiz_exits w H) as (HV & HE & HO). auto.
  - destruct (handle_trivia_exits w H) as (HV & HE & HO). auto.
  - destruct (handle_poll_exits w H) as (HV & HE & HO). auto.
Qed.

End EmptyOptions.

(* ------------------------------------------------------------------ *)
(** ** Handlers: exceptions of a click *)

Section Swallowing.

Variable D : Driver.

Lemma swallows_nil k : swallows k [].
Proof. intros rest H. exact H. Qed.

Lemma swallows_app a b t1 t2 :
  swallows a t1 -> swallows b t2 -> swallows (a + b) (t1 ++ t2)%list.
Proof.
  intros H1 H2 rest H. rewrite <- app_assoc. apply H1, H2, H.
Qed.

Lemma swallows_one e k : e <> EvClick OptionElem false -> swallows k [e].
Proof.
  intros H rest Hr. cbn.
  destruct e as [| | | | |[] []| | | | | | | | |]; auto; contradiction.
Qed.

Lemma swallows_sound k t : swallows k t -> clicks_swallowed t = true.
Proof. intros H. rewrite <- (app_nil_r t). now apply H. Qed.

End Swallowing.

Create HintDb swallow.
#[local] Hint Resolve swallows_nil swallows_app : swallow.

Ltac swallow_side :=
  first [ solve [auto with swallow]
        | solve [intros; apply swallows_one; discriminate] ].

Ltac swallow_step :=
  first
    [ apply emits_ret; swallow_side
    | apply emits_query_selector; swallow_side
    | apply emits_query_selector_all; swallow_side
    | apply emits_or_else_query; swallow_side
    | apply emits_random_delay; swallow_side
    | apply emits_random_choice; swallow_side
    | apply emits_call; swallow_side ].

Section ClickErrors.

Variable D : Driver.

(** The guarded click and the delay after it: whatever the click did, the
    delay follows. *)
Lemma guarded_click_then_delay A c a b (rest : M D A) :
  emits swallows 0 rest ->
  emits swallows 0 (click_guarded D c ;;; _random_delay D a b ;;; rest).
Proof.
  intros Hrest w. rewrite trace_bind, res_click_guarded.
  destruct (trace_click_guarded D c w) as [ok ->].
  rewrite trace_bind. cbn [_random_delay res trace world].
  intros tl Htl. cbn [app].
  assert (H : clicks_swallowed
                (EvDelay :: trace (rest (sleep_uniform D a b
                    (world (click_guarded D c w)))) ++ tl) = true).
  { cbn. now apply Hrest. }
  destruct ok; cbn [clicks_swallowed]; exact H.
Qed.

Lemma iteration_tail_swallows options (complete_sel : string)
    (loop : M D (option bool)) :
  emits swallows 0 loop ->
  emits swallows 0
    (choice <- random_choice D options ;;
     click_guarded D choice ;;;
     _random_delay D 1500 3000 ;;;
     complete <- query_selector D complete_sel ;;
     if is_some complete then ret (Some true) else loop).
Proof.
  intros IH.
  eapply emits_bind with (a := 0) (b := 0); auto with swallow.
  { swallow_step. }
  intros choice. apply guarded_click_then_delay.
  eapply emits_bind with (a := 0) (b := 0); auto with swallow.
  { swallow_step. }
  intros complete. destruct (is_some complete); [swallow_step | exact IH].
Qed.

Lemma quiz_loop_swallows n : emits swallows 0 (quiz_loop D n).
Proof.
  induction n as [|n IH]; cbn [quiz_loop]; [swallow_step|].
  eapply emits_bind with (a := 0) (b := 0); auto with swallow.
  { swallow_step. }
  intros options.
  eapply emits_bind with (a := 0) (b := 0); auto with swallow.
  { swallow_step. }
  intros options'. destruct (is_nil options'); [swallow_step|].
  now apply iteration_tail_swallows.
Qed.

Lemma trivia_loop_swallows n : emits swallows 0 (trivia_loop D n).
Proof.
  induction n as [|n IH]; cbn [trivia_loop]; [swallow_step|].
  eapply emits_bind with (a := 0) (b := 0); auto with swallow.
  { swallow_step. }
  intros options. destruct (is_nil options); [swallow_step|].
  now apply iteration_tail_swallows.
Qed.

Lemma handle_quiz_swallows : emits swallows 0 (handle_quiz D).
Proof.
  unfold handle_quiz, handle_quiz_body.
  eapply emits_try with (a := 0) (b := 0); auto with swallow;
    [|intros; swallow_step].
  eapply emits_bind with (a := 0) (b := 0); auto with swallow.
  { swallow_step. }
  intros start_btn.
  eapply emits_bind with (a := 0) (b := 0); auto with swallow.
  { destruct start_btn; [|swallow_step].
    eapply emits_bind with (a := 0) (b := 0); auto with swallow.
    - swallow_step.
    - intros _. swallow_step. }
  intros _.
  eapply emits_bind with (a := 0) (b := 0); auto with swallow.
  { apply quiz_loop_swallows. }
  intros r. destruct r; cbn [after_loop]; swallow_step.
Qed.

Lemma handle_trivia_swallows : emits swallows 0 (handle_trivia D).
Proof.
  unfold handle_trivia, handle_trivia_body.
  eapply emits_try with (a := 0) (b := 0); auto with swallow;
    [|intros; swallow_step].
  eapply emits_bind with (a := 0) (b := 0); auto with swallow.
  { apply trivia_loop_swallows. }
  intros r. destruct r; cbn [after_loop]; swallow_step.
Qed.

(** A call whose failure is the event looked for, followed by steps that do
    not log it: the event is the failure, and the run stops with it. *)
Lemma exits_on_failed_call A B (f : World D -> Res A * World D) ev
    (k : A -> M D B) :
  (forall a, emits (absent (ev false)) 0 (k a)) ->
  ev true <> ev false ->
  exits_at (ev false) (@raises B) (bind (call D f ev) k).
Proof.
  intros Hk Hne w. rewrite trace_bind, res_bind, trace_call, res_call.
  destruct (fst (f w)) as [a|e]; cbn [is_ok app].
  - intros [H|H]; [contradiction|]. now apply Hk in H.
  - intros _. split; [reflexivity|]. split.
    + now exists [].
    + apply only_last_single.
Qed.

Lemma handle_poll_click_failure :
  exits_at (EvClick OptionElem false) (eq (Ok false)) (handle_poll D).
Proof.
  unfold handle_poll, handle_poll_body.
  apply exits_try with (V' := @raises bool);
    [|discriminate|reflexivity].
  apply exits_after; [absent_step|]. intros options.
  apply exits_after; [absent_step|]. intros options'.
  destruct (is_nil options'); [apply exits_ret|].
  apply exits_after; [absent_step|]. intros choice.
  apply exits_on_failed_call; [|discriminate].
  intros _. eapply emits_bind with (a := 0) (b := 0); auto with absents.
  - absent_step.
  - intros _. absent_step.
Qed.

Lemma click_iterations_app t1 t2 :
  click_iterations (t1 ++ t2) = click_iterations t1 + click_iterations t2.
Proof. unfold click_iterations. now rewrite filter_app, length_app. Qed.

Lemma random_choice_offered (seq : list (Elem D)) w :
  is_nil seq = false ->
  exists c, res (random_choice D seq w) = Ok c /\
            trace (random_choice D seq w) = [EvChoice].
Proof.
  destruct seq as [|x xs]; [discriminate|]. intros _. unfold random_choice.
  destruct (randbelow D (List.length (x :: xs)) w). cbn. eauto.
Qed.

(** One iteration on a page that shows no completion marker: one option
    click, whether it raises or not, and then the rest of the loop. *)
Lemma iteration_tail_runs options (complete_sel : string)
    (loop : M D (option bool)) n w :
  is_nil options = false ->
  (forall w', exists dom, page_dom D w' = Ok dom /\ dom complete_sel = []) ->
  (forall w', res (loop w') = Ok None /\
              click_iterations (trace (loop w')) = n) ->
  let tail :=
    (choice <- random_choice D options ;;
     click_guarded D choice ;;;
     _random_delay D 1500 3000 ;;;
     complete <- query_selector D complete_sel ;;
     if is_some complete then ret (Some true) else loop) in
  res (tail w) = Ok None /\ click_iterations (trace (tail w)) = S n.
Proof.
  intros Hne Hdom Hloop. cbn zeta.
  rewrite res_bind, trace_bind.
  destruct (random_choice_offered _ w Hne) as (c & -> & ->).
  rewrite res_bind, trace_bind, res_click_guarded.
  match goal with
  | |- context [trace (click_guarded D c ?w')] =>
      destruct (trace_click_guarded D c w') as [ok ->]
  end.
  rewrite res_bind, trace_bind. cbn [_random_delay res world trace].
  rewrite res_bind, trace_bind. unfold query_selector, read.
  cbn [res world trace].
  match goal with
  | |- context [page_dom D ?w'] =>
      destruct (Hdom w') as (dom & -> & ->);
      destruct (Hloop w') as [Hr Hn]
  end.
  cbn [hd_error is_some]. rewrite Hr. split; [reflexivity|].
  rewrite !click_iterations_app, Hn. reflexivity.
Qed.

Lemma trivia_loop_runs n :
  always_offers D trivia_option_sel [trivia_complete_sel] ->
  forall w, res (trivia_loop D n w) = Ok None /\
            click_iterations (trace (trivia_loop D n w)) = n.
Proof.
  intros H. induction n as [|n IH]; intros w; cbn [trivia_loop].
  - split; reflexivity.
  - rewrite res_bind, trace_bind, res_query_selector_all,
      trace_query_selector_all, world_query_selector_all.
    destruct (H w) as (dom & -> & Hne & Hhid). rewrite Hne.
    destruct (@iteration_tail_runs (dom trivia_option_sel)
                trivia_complete_sel (trivia_loop D n) n w Hne) as [-> Hn].
    + intros w'. destruct (H w') as (dom' & E & _ & Hh). exists dom'.
      split; [exact E|]. now inversion Hh.
    + exact IH.
    + split; [reflexivity|]. rewrite click_iterations_app, Hn. reflexivity.
Qed.

Lemma quiz_loop_runs n :
  always_offers D quiz_option_sel [quiz_start_sel; quiz_complete_sel] ->
  forall w, res (quiz_loop D n w) = Ok None /\
            click_iterations (trace (quiz_loop D n w)) = n.
Proof.
  intros H. induction n as [|n IH]; intros w; cbn [quiz_loop].
  - split; reflexivity.
  - rewrite res_bind, trace_bind, res_query_selector_all,
      trace_query_selector_all, world_query_selector_all.
    destruct (H w) as (dom & -> & Hne & Hhid).
    rewrite res_bind, trace_bind. unfold or_else_query. rewrite Hne.
    cbn [ret res world trace]. rewrite Hne.
    destruct (@iteration_tail_runs (dom quiz_option_sel)
                quiz_complete_sel (quiz_loop D n) n w Hne) as [-> Hn].
    + intros w'. destruct (H w') as (dom' & E & _ & Hh). exists dom'.
      split; [exact E|]. inversion Hh as [|? ? _ Hh']. now inversion Hh'.
    + exact IH.
    + split; [reflexivity|]. rewrite !click_iterations_app, Hn. reflexivity.
Qed.

Lemma handle_trivia_runs w :
  always_offers D trivia_option_sel [trivia_complete_sel] ->
  res (handle_trivia D w) = Ok true /\
  click_iterations (trace (handle_trivia D w)) = 15.
Proof.
  intros H. unfold handle_trivia, handle_trivia_body.
  rewrite res_try, trace_try, res_bind, trace_bind.
  destruct (trivia_loop_runs 15 H w) as [-> Hn].
  cbn [after_loop ret res world trace]. split; [reflexivity|].
  rewrite !click_iterations_app, Hn. reflexivity.
Qed.

Lemma handle_quiz_runs w :
  always_offers D quiz_option_sel [quiz_start_sel; quiz_complete_sel] ->
  res (handle_quiz D w) = Ok true /\
  click_iterations (trace (handle_quiz D w)) = 20.
Proof.
  intros H. unfold handle_quiz, handle_quiz_body.
  rewrite res_try, trace_try, res_bind, trace_bind.
  unfold query_selector, read. cbn [res world trace].
  destruct (H w) as (dom & -> & _ & Hhid).
  inversion Hhid as [|? ? Hstart _]. rewrite Hstart.
  cbn [hd_error]. rewrite res_bind, trace_bind.
  cbn [ret res world trace]. rewrite res_bind, trace_bind.
  destruct (quiz_loop_runs 20 H w) as [-> Hn].
  cbn [after_loop ret res world trace]. split; [reflexivity|].
  rewrite !click_iterations_app, Hn. reflexivity.
Qed.

(** C4 (amended). In the quiz and trivia handlers an exception raised while
    clicking a single option is swallowed and the iteration loop continues:
    the delay of the iteration follows every failed click, and on a page
    that keeps offering options and shows no completion marker the handler
    runs all its iterations, 20 and 15, and returns true whatever the
    clicks do, even when every one of them raises.  In the poll handler,
    which clicks once outside any loop, the exception of the click is not
    swallowed: it is caught at the handler boundary, nothing follows the
    click, and the handler returns false.  In all three an exception
    escaping the handler body is caught at the handler boundary and the
    handler returns false. *)
Theorem click_errors_by_handler (w : World D) :
  (clicks_swallowed (trace (handle_quiz D w)) = true /\
   (always_offers D quiz_option_sel [quiz_start_sel; quiz_complete_sel] ->
    res (handle_quiz D w) = Ok true /\
    click_iterations (trace (handle_quiz D w)) = 20)) /\
  (clicks_swallowed (trace (handle_trivia D w)) = true /\
   (always_offers D trivia_option_sel [trivia_complete_sel] ->
    res (handle_trivia D w) = Ok true /\
    click_iterations (trace (handle_trivia D w)) = 15)) /\
  (In (EvClick OptionElem false) (trace (handle_poll D w)) ->
   res (handle_poll D w) = Ok false /\
   ends_with (EvClick OptionElem false) (trace (handle_poll D w)) /\
   only_last (EvClick OptionElem false) (trace (handle_poll D w))) /\
  (forall e, res (handle_quiz_body D w) = Raise e ->
             res (handle_quiz D w) = Ok false) /\
  (forall e, res (handle_trivia_body D w) = Raise e ->
             res (handle_trivia D w) = Ok false) /\
  (forall e, res (handle_poll_body D w) = Raise e ->
             res (handle_poll D w) = Ok false).
Proof.
  split; [split|split; [split|split; [|repeat split]]].
  - apply swallows_sound with (k := 0), handle_quiz_swallows.
  - apply handle_quiz_runs.
  - apply swallows_sound with (k := 0), handle_trivia_swallows.
  - apply handle_trivia_runs.
  - intros H. destruct (handle_poll_click_failure w H) as (HV & HE & HO).
    auto.
  - intros e. apply try_except_caught.
  - intros e. apply try_except_caught.
  - intros e. apply try_except_caught.
Qed.

End ClickErrors.

(* ------------------------------------------------------------------ *)
(** ** The classifier *)

Section Classifier.

Variable D : Driver.

Lemma any_selector_readable sels w dom :
  page_dom D w = Ok dom ->
  any_selector D sels w = mkOut (Ok (group_matches dom sels)) w [].
Proof.
  intros Hdom. induction sels as [|sel sels IH]; [reflexivity|].
  cbn [any_selector group_matches existsb].
  unfold bind, query_selector, read. rewrite Hdom. cbn [res world trace].
  destruct (dom sel) as [|x xs]; cbn [hd_error is_some is_nil negb orb].
  - rewrite IH. reflexivity.
  - reflexivity.
Qed.

Lemma any_selector_unreadable sel sels w e :
  page_dom D w = Raise e ->
  res (any_selector D (sel :: sels) w) = Raise e.
Proof.
  intros Hdom. cbn [any_selector]. rewrite res_bind.
  unfold query_selector, read. cbn [res]. now rewrite Hdom.
Qed.

(** The classifier's answer is decided by the settled page. *)
Lemma detect_activity_type_settled w :
  res (detect_activity_type D w) =
  res ((q <- any_selector D quiz_selectors ;;
        if q then ret "quiz" else
        p <- any_selector D poll_selectors ;;
        if p then ret "poll" else
        t <- any_selector D trivia_selectors ;;
        if t then ret "trivia" else
        l <- any_selector D lightspeed_selectors ;;
        if l then ret "quiz" else
        ret "click_only") (settled w)).
Proof.
  unfold detect_activity_type. rewrite res_bind, res_wait_for_page_load.
  rewrite res_bind. reflexivity.
Qed.

(** On a readable page the classifier computes the rule of the
    specification. *)
Lemma detect_activity_type_refines w dom :
  page_dom D (settled w) = Ok dom ->
  res (detect_activity_type D w) = Ok (classify_spec dom).
Proof.
  intros Hdom. rewrite detect_activity_type_settled. unfold classify_spec.
  rewrite res_bind, any_selector_readable with (dom := dom) by exact Hdom.
  cbn [res world].
  destruct (group_matches dom quiz_selectors); [reflexivity|].
  rewrite res_bind, any_selector_readable with (dom := dom) by exact Hdom.
  cbn [res world].
  destruct (group_matches dom poll_selectors); [reflexivity|].
  rewrite res_bind, any_selector_readable with (dom := dom) by exact Hdom.
  cbn [res world].
  destruct (group_matches dom trivia_selectors); [reflexivity|].
  rewrite res_bind, any_selector_readable with (dom := dom) by exact Hdom.
  cbn [res world].
  destruct (group_matches dom lightspeed_selectors); reflexivity.
Qed.

Lemma detect_activity_type_unreadable w e :
  page_dom D (settled w) = Raise e ->
  res (detect_activity_type D w) = Raise e.
Proof.
  intros Hdom. rewrite detect_activity_type_settled, res_bind.
  unfold quiz_selectors.
  now rewrite any_selector_unreadable with (e := e).
Qed.

Lemma classify_spec_in_range (dom : string -> list (Elem D)) :
  In (classify_spec dom) activity_types.
Proof.
  unfold classify_spec, activity_types.
  repeat match goal with
         | |- context [if ?b then _ else _] => destruct b
         end; cbn; auto.
Qed.

(** C3. The classifier is total: for every DOM state [dom] of the page,
    which is what the page answers to queries once settled, it returns a
    value and does not raise, the value is one of quiz, poll, trivia and
    click_only, and it is click_only when no selector group matches. *)
Theorem classifier_total_on_readable_dom (w : World D) dom :
  page_dom D (settled w) = Ok dom ->
  exists t, res (detect_activity_type D w) = Ok t /\
            In t activity_types /\
            (group_matches dom quiz_selectors = false ->
             group_matches dom poll_selectors = false ->
             group_matches dom trivia_selectors = false ->
             group_matches dom lightspeed_selectors = false ->
             t = "click_only").
Proof.
  intros Hdom. exists (classify_spec dom). split; [|split].
  - now apply detect_activity_type_refines.
  - apply classify_spec_in_range.
  - intros Hq Hp Ht Hl. unfold classify_spec.
    now rewrite Hq, Hp, Ht, Hl.
Qed.

(** C6. On every page that shows at least one quiz marker and at least one
    trivia marker, the classifier returns quiz. *)
Theorem quiz_markers_win (w : World D) :
  marker_shown (settled w) quiz_selectors = true ->
  marker_shown (settled w) trivia_selectors = true ->
  res (detect_activity_type D w) = Ok "quiz".
Proof.
  unfold marker_shown. intros Hq _.
  destruct (page_dom D (settled w)) as [dom|e] eqn:Hdom; [|discriminate].
  rewrite detect_activity_type_refines with (dom := dom) by exact Hdom.
  unfold classify_spec.
  unfold group_matches. now rewrite Hq.
Qed.

End Classifier.

(* ------------------------------------------------------------------ *)
(** ** The login gate *)

Section Login.

Variable U : Unicode.
Variable D : Driver.

Lemma _check_login_total w : exists b, res (_check_login U D w) = Ok b.
Proof. apply try_except_total. Qed.

(** C8. When the DOM access of the login check raises, so that none of the
    checks can be evaluated, the check returns true. *)
Theorem login_check_fails_open (w : World D) (e : Exn) :
  page_dom D w = Raise e ->
  res (_check_login_body U D w) = Raise e /\
  res (_check_login U D w) = Ok true.
Proof.
  intros Hdom.
  assert (Hbody : res (_check_login_body U D w) = Raise e).
  { unfold _check_login_body. rewrite res_bind.
    unfold query_selector, read. cbn [res]. now rewrite Hdom. }
  split; [exact Hbody|].
  unfold _check_login. now apply try_except_caught with (e := e).
Qed.

End Login.

(* ------------------------------------------------------------------ *)
(** ** The detectors *)

Ltac invert_bind H :=
  let x := fresh "x" in
  apply bind_inv in H; destruct H as (x & _ & H).

Section Detection.

Variable U : Unicode.
Variable D : Driver.

Lemma well_formed_spec a :
  well_formed a = true <->
  completed a = false /\ url a <> [] /\ 3 <= List.length (title a).
Proof.
  unfold well_formed. rewrite !andb_true_iff, negb_true_iff, Nat.leb_le.
  destruct (url a); cbn; intuition congruence.
Qed.

(** The scan keeps what it is given and adds only what [parse] yields; it
    never raises. *)
Lemma scan_invariant (parse : Elem D -> M D (option Activity)) :
  (forall x w a, res (parse x w) = Ok (Some a) -> well_formed a = true) ->
  forall xs activities w,
    forallb well_formed activities = true ->
    exists out, res (scan parse xs activities w) = Ok out /\
                forallb well_formed out = true.
Proof.
  intros Hparse. induction xs as [|x xs IH]; intros activities w Hacts.
  - exists activities. auto.
  - cbn [scan]. rewrite res_bind, res_try.
    destruct (res (parse x w)) as [[a|]|e] eqn:E; cbn [ret res];
      apply IH; auto.
    rewrite forallb_app, Hacts. cbn. now rewrite (Hparse _ _ _ E).
Qed.

Lemma parse_card_well_formed card w a :
  res (parse_card U D card w) = Ok (Some a) -> well_formed a = true.
Proof.
  unfold parse_card. intros H.
  invert_bind H. invert_bind H. invert_bind H.
  match type of H with
  | context [negb (truthy ?t) || ?c] =>
      destruct (truthy t) eqn:Et; cbn [negb orb] in H; [|discriminate];
      destruct c eqn:El; [discriminate|]
  end.
  do 5 invert_bind H.
  match type of H with
  | context [truthy ?u && negb ?c] =>
      destruct (truthy u) eqn:Eu; cbn [andb] in H; [|discriminate];
      destruct c eqn:Ec; cbn [negb] in H; [discriminate|]
  end.
  cbn [ret res] in H. inversion H; subst a; clear H.
  unfold well_formed. cbn [completed url title negb andb].
  rewrite Eu. cbn [andb]. apply Nat.ltb_ge in El. now apply Nat.leb_le.
Qed.

Lemma parse_link_well_formed link w a :
  res (parse_link U D link w) = Ok (Some a) -> well_formed a = true.
Proof.
  unfold parse_link. intros H.
  invert_bind H. invert_bind H.
  match type of H with
  | context [negb (truthy ?t) || Nat.ltb ?n 5 || ?c] =>
      destruct (truthy t) eqn:Et; cbn [negb orb] in H; [|discriminate];
      destruct (Nat.ltb n 5) eqn:El; cbn [orb] in H; [discriminate|];
      destruct c eqn:Eh; [discriminate|]
  end.
  match type of H with
  | context [?r && truthy ?u] =>
      destruct r; cbn [andb] in H; [|discriminate];
      destruct (truthy u) eqn:Eu; [|discriminate]
  end.
  cbn [ret res] in H. inversion H; subst a; clear H.
  unfold well_formed. cbn [completed url title negb andb].
  rewrite Eu. cbn [andb]. apply Nat.leb_le.
  match type of El with
  | Nat.ltb (List.length ?t) 5 = false =>
      change (3 <= List.length (firstn 80 t))
  end.
  rewrite length_firstn. apply Nat.ltb_ge in El. lia.
Qed.

Lemma detect_activities_well_formed w acts :
  res (detect_activities U D w) = Ok acts ->
  forallb well_formed acts = true.
Proof.
  unfold detect_activities. intros H. do 5 invert_bind H.
  match type of H with
  | res (scan _ ?xs [] ?w') = _ =>
      destruct (scan_invariant (parse_card U D)
                  (@parse_card_well_formed) xs [] w' eq_refl)
        as (out & E & Hout)
  end.
  congruence.
Qed.

Lemma _detect_alternative_total w :
  exists acts, res (_detect_alternative U D w) = Ok acts.
Proof. apply try_except_total. Qed.

Lemma _detect_alternative_well_formed w acts :
  res (_detect_alternative U D w) = Ok acts ->
  forallb well_formed acts = true.
Proof.
  unfold _detect_alternative. rewrite res_try.
  match goal with
  | |- context [res (bind ?m ?f w)] => destruct (res (bind m f w)) eqn:E
  end.
  - intros H. inversion H; subst a; clear H. invert_bind E.
    match type of E with
    | res (scan _ ?xs [] ?w') = _ =>
        destruct (scan_invariant (parse_link U D)
                    (@parse_link_well_formed) xs [] w' eq_refl)
          as (out & E' & Hout)
    end.
    congruence.
  - cbn. intros H. now inversion H.
Qed.

(** C2. Every activity in the list returned by a detection pass, primary or
    alternative, is not completed, has a non-empty url and a title of at
    least three characters. *)
Theorem detected_activities_are_pending (w : World D) (acts : list Activity) :
  res (detect_activities U D w) = Ok acts \/
  res (_detect_alternative U D w) = Ok acts ->
  Forall (fun a => completed a = false /\ url a <> [] /\
                   3 <= List.length (title a)) acts.
Proof.
  intros H.
  assert (Hall : forallb well_formed acts = true).
  { destruct H as [H|H].
    - now apply detect_activities_well_formed with (w := w).
    - now apply _detect_alternative_well_formed with (w := w). }
  apply Forall_forall. intros a Ha. apply well_formed_spec.
  rewrite forallb_forall in Hall. now apply Hall.
Qed.

End Detection.

(* ------------------------------------------------------------------ *)
(** ** The activity loop *)

Section Orchestrator.

Variable D : Driver.

Lemma complete_activity_total a w :
  exists b, res (complete_activity D a w) = Ok b.
Proof.
  unfold complete_activity. rewrite res_bind. cbn [announce res world].
  apply try_except_total.
Qed.

Lemma complete_activity_caught a w e :
  res (complete_activity_body D a w) = Raise e ->
  res (complete_activity D a w) = Ok false.
Proof.
  intros H. unfold complete_activity. rewrite res_bind.
  cbn [announce res world]. now apply try_except_caught with (e := e).
Qed.

Lemma navigation_failure_raises a w e :
  fst (page_goto D (full_url a) 30000 w) = Raise e ->
  res (complete_activity_body D a w) = Raise e.
Proof.
  intros H. unfold complete_activity_body. rewrite res_bind.
  unfold goto. now rewrite res_call, H.
Qed.

Lemma announce_first a w :
  In (EvActivity a) (trace (complete_activity D a w)).
Proof.
  unfold complete_activity. rewrite trace_bind. cbn [announce res trace].
  now left.
Qed.

Lemma back_to_dashboard_ok w : res (back_to_dashboard D w) = Ok tt.
Proof.
  unfold back_to_dashboard. rewrite res_try, res_bind.
  destruct (res (goto D (lit REWARDS_URL) 30000 w)) as [[]|]; reflexivity.
Qed.

(** One turn of the loop: the activity is handled, the tally moves by its
    outcome, and the loop goes on with the rest. *)
Lemma run_activities_cons act rest completed w :
  exists success w' mid,
    res (complete_activity D act w) = Ok success /\
    let o := run_activities D rest
               (if success then S completed else completed) w' in
    run_activities D (act :: rest) completed w =
    mkOut (res o) (world o)
          (trace (complete_activity D act w) ++ mid ++ trace o).
Proof.
  destruct (complete_activity_total act w) as [success Hs].
  pose (w1 := sleep_uniform D 2000 4000 (world (complete_activity D act w))).
  exists success, (world (back_to_dashboard D w1)),
    (EvDelay :: trace (back_to_dashboard D w1)).
  split; [exact Hs|]. cbn zeta. cbn [run_activities].
  rewrite bind_ok with (a := success) by exact Hs.
  rewrite bind_ok with (a := tt) by reflexivity.
  cbn [_random_delay res world trace].
  fold w1.
  rewrite bind_ok with (a := tt) by apply back_to_dashboard_ok.
  reflexivity.
Qed.

(** The loop never raises, and the tally grows by at most one per
    activity. *)
Lemma run_activities_total acts : forall completed w,
  exists final, res (run_activities D acts completed w) = Ok final /\
                completed <= final <= completed + List.length acts.
Proof.
  induction acts as [|act rest IH]; intros completed w.
  - exists completed. cbn. split; [reflexivity | lia].
  - destruct (run_activities_cons act rest completed w)
      as (success & w' & mid & _ & E).
    cbn zeta in E. rewrite E. cbn [res List.length].
    destruct (IH (if success then S completed else completed) w')
      as (final & Hf & Hb).
    exists final. split; [exact Hf|]. destruct success; lia.
Qed.

(** Every activity of the list is opened. *)
Lemma run_activities_opens_all acts : forall completed w a,
  In a acts -> In (EvActivity a) (trace (run_activities D acts completed w)).
Proof.
  induction acts as [|act rest IH]; intros completed w a Ha; [destruct Ha|].
  destruct (run_activities_cons act rest completed w)
    as (success & w' & mid & _ & E).
  cbn zeta in E. rewrite E. cbn [trace].
  destruct Ha as [<-|Ha].
  - apply in_or_app. left. apply announce_first.
  - apply in_or_app. right. apply in_or_app. right. now apply IH.
Qed.

Lemma bind_assoc A B C (m : M D A) (f : A -> M D B) (g : B -> M D C) w :
  bind (bind m f) g w = bind m (fun x => bind (f x) g) w.
Proof.
  unfold bind. destruct (res (m w)); cbn [res world trace]; [|reflexivity].
  destruct (res (f a (world (m w)))); cbn [res world trace];
    [|reflexivity].
  now rewrite app_assoc.
Qed.

Lemma bind_ext A B (m : M D A) (f g : A -> M D B) w :
  (forall a w', f a w' = g a w') -> bind m f w = bind m g w.
Proof.
  intros H. unfold bind. destruct (res (m w)); [|reflexivity].
  now rewrite H.
Qed.

(** The loop over a concatenation is the loop over the first part followed
    by the loop over the second, the tally handed over. *)
Lemma run_activities_app pre post : forall completed w,
  run_activities D (pre ++ post) completed w =
  bind (run_activities D pre completed)
       (fun tally => run_activities D post tally) w.
Proof.
  induction pre as [|act pre IH]; intros completed w.
  - cbn [app run_activities]. unfold bind. cbn.
    destruct (run_activities D post completed w); reflexivity.
  - cbn [app run_activities].
    rewrite bind_assoc. apply bind_ext. intros success w1.
    rewrite bind_assoc. apply bind_ext. intros _ w2.
    rewrite bind_assoc. apply bind_ext. intros _ w3.
    apply IH.
Qed.

(** One turn of the loop, with the state it leaves. *)
Lemma run_activities_next act rest completed w success :
  res (complete_activity D act w) = Ok success ->
  res (run_activities D (act :: rest) completed w) =
  res (run_activities D rest (if success then S completed else completed)
         (after_activity D act w)).
Proof.
  intros Hs. cbn [run_activities].
  rewrite bind_ok with (a := success) by exact Hs.
  rewrite bind_ok with (a := tt) by reflexivity.
  cbn [_random_delay res world trace].
  rewrite bind_ok with (a := tt) by apply back_to_dashboard_ok.
  reflexivity.
Qed.

(** The loop adds to the tally it is given what it would count from zero. *)
Lemma run_activities_shift acts : forall completed w,
  exists added,
    res (run_activities D acts 0 w) = Ok added /\
    res (run_activities D acts completed w) = Ok (completed + added) /\
    added <= List.length acts.
Proof.
  induction acts as [|act rest IH]; intros completed w.
  - exists 0. cbn. rewrite Nat.add_0_r. repeat split; auto.
  - destruct (complete_activity_total act w) as [success Hs].
    rewrite !run_activities_next with (success := success) by exact Hs.
    destruct (IH (if success then 1 else 0) (after_activity D act w))
      as (k & Hk0 & Hk1 & Hle).
    destruct (IH (if success then S completed else completed)
                (after_activity D act w)) as (k' & Hk0' & Hk2 & _).
    assert (k' = k) by congruence. subst k'.
    exists ((if success then 1 else 0) + k). split; [exact Hk1|]. split.
    + rewrite Hk2. f_equal. destruct success; lia.
    + cbn [List.length]. destruct success; lia.
Qed.

(** C7. When the navigation to an activity's URL times out, or its handling
    raises, the activity is counted as not completed and the loop goes on
    with the next activity: the run of the whole list does not raise, every
    later activity is opened, and the final tally is exactly the tally
    reached before the failed activity plus what the later activities add,
    so that the failure costs the failed activity alone. *)
Theorem failed_activity_is_skipped (pre post : list Activity)
    (act : Activity) (w : World D) (e : Exn) :
  let before := run_activities D pre 0 w in
  let whole := run_activities D (pre ++ act :: post) 0 w in
  let later := run_activities D post 0 (after_activity D act (world before)) in
  fst (page_goto D (full_url act) 30000 (world before)) = Raise e \/
  res (complete_activity_body D act (world before)) = Raise e ->
  res (complete_activity D act (world before)) = Ok false /\
  exists tally added,
    res before = Ok tally /\
    res later = Ok added /\
    res whole = Ok (tally + added) /\
    added <= List.length post /\
    (forall a, In a post -> In (EvActivity a) (trace whole)).
Proof.
  intros before whole later H.
  assert (Hbody : res (complete_activity_body D act (world before)) = Raise e).
  { destruct H as [H|H]; [now apply navigation_failure_raises | exact H]. }
  assert (Hfalse : res (complete_activity D act (world before)) = Ok false)
    by now apply complete_activity_caught with (e := e).
  split; [exact Hfalse|].
  destruct (run_activities_total pre 0 w) as (tally & Ht & _).
  fold before in Ht.
  destruct (run_activities_shift post tally
              (after_activity D act (world before)))
    as (added & Ha0 & Ha & Hle).
  fold later in Ha0.
  exists tally, added. repeat split; auto.
  - unfold whole. rewrite run_activities_app, res_bind.
    fold before. rewrite Ht.
    rewrite run_activities_next with (success := false) by exact Hfalse.
    exact Ha.
  - intros a Ha'. unfold whole. apply run_activities_opens_all.
    apply in_or_app. right. now right.
Qed.

End Orchestrator.

(* ------------------------------------------------------------------ *)
(** ** The run *)

Section Run.

Variable U : Unicode.
Variable D : Driver.

(** C10. The profile argument has no effect: two runs that differ only in
    the profile value return the same count, perform the same driver calls
    and leave the same world, through the entry point and through its
    synchronous wrapper; the directory handed to the browser is computed by
    [_get_bot_data_dir], which takes no argument. *)
Theorem profile_is_ignored (browser_path profile1 profile2 : pystr)
    (headless dryrun : bool) (w : World D) :
  run_daily_activities U D browser_path profile1 headless dryrun w =
  run_daily_activities U D browser_path profile2 headless dryrun w /\
  run U D browser_path profile1 headless dryrun w =
  run U D browser_path profile2 headless dryrun w.
Proof. split; reflexivity. Qed.

End Run.

(* ------------------------------------------------------------------ *)
(** ** Concrete runs *)

(** C1, as stated, fails for the poll handler: on a page without any option
    element the poll handler finds zero options and does not return true. *)
Lemma poll_without_options_is_failure :
  ~ (In (EvQueryAll poll_broad_sel 0)
        (trace (handle_poll (Toy.driver Toy.blank) Toy.start)) ->
     res (handle_poll (Toy.driver Toy.blank) Toy.start) = Ok true).
Proof.
  intros H.
  assert (E : res (handle_poll (Toy.driver Toy.blank) Toy.start) = Ok true).
  { apply H. cbn. auto. }
  vm_compute in E. discriminate.
Qed.

Lemma no_options_exit_witness :
  In (EvQueryAll quiz_generic_sel 0)
     (trace (handle_quiz (Toy.driver Toy.blank) Toy.start)) /\
  res (handle_quiz (Toy.driver Toy.blank) Toy.start) = Ok true.
Proof.
  assert (H : In (EvQueryAll quiz_generic_sel 0)
                (trace (handle_quiz (Toy.driver Toy.blank) Toy.start))).
  { cbn. auto. }
  split; [exact H|].
  exact (proj1 (proj1 (no_options_exit (Toy.driver Toy.blank) Toy.start) H)).
Defined.

Lemma detected_activities_witness :
  res (detect_activities ascii_tables (Toy.driver Toy.dashboard) Toy.start)
  = Ok Toy.dashboard_activities /\
  Forall (fun a => completed a = false /\ url a <> [] /\
                   3 <= List.length (title a)) Toy.dashboard_activities.
Proof.
  assert (H : res (detect_activities ascii_tables (Toy.driver Toy.dashboard)
                     Toy.start) = Ok Toy.dashboard_activities).
  { vm_compute. reflexivity. }
  split; [exact H|].
  apply (detected_activities_are_pending ascii_tables
           (Toy.driver Toy.dashboard) Toy.start).
  left. exact H.
Defined.

(** A page without a DOM state: when the DOM cannot be read at all, the
    classifier, which has no exception handling of its own, passes the
    driver's exception on to [complete_activity]. *)
Example classifier_without_dom_state :
  res (detect_activity_type (Toy.driver Toy.broken) Toy.start)
  = Raise (PlaywrightError "Target closed").
Proof. reflexivity. Qed.

Lemma classifier_total_witness :
  page_dom (Toy.driver Toy.quiz_three)
    (settled (D := Toy.driver Toy.quiz_three) Toy.start)
  = Ok (Toy.only quiz_option_sel [1; 2; 3; 4]) /\
  exists t,
    res (detect_activity_type (Toy.driver Toy.quiz_three) Toy.start) = Ok t /\
    In t activity_types.
Proof.
  split; [reflexivity|].
  destruct (@classifier_total_on_readable_dom (Toy.driver Toy.quiz_three)
              Toy.start (Toy.only quiz_option_sel [1; 2; 3; 4]) eq_refl)
    as (t & E & Hin & _).
  exists t. split; [exact E | exact Hin].
Defined.

(** C4, as stated, fails for the poll handler: the exception of its click is
    not swallowed. *)
Lemma poll_click_exception_not_swallowed :
  ~ (clicks_swallowed
       (trace (handle_poll (Toy.driver Toy.poll_click_fails) Toy.start))
     = true).
Proof. vm_compute. discriminate. Qed.

Lemma click_errors_witness :
  (In (EvClick OptionElem false)
      (trace (handle_quiz (Toy.driver Toy.options_click_fails) Toy.start)) /\
   res (handle_quiz (Toy.driver Toy.options_click_fails) Toy.start)
   = Ok true /\
   click_iterations
     (trace (handle_quiz (Toy.driver Toy.options_click_fails) Toy.start))
   = 20) /\
  (In (EvClick OptionElem false)
      (trace (handle_trivia (Toy.driver Toy.options_click_fails)
                Toy.start)) /\
   res (handle_trivia (Toy.driver Toy.options_click_fails) Toy.start)
   = Ok true /\
   click_iterations
     (trace (handle_trivia (Toy.driver Toy.options_click_fails) Toy.start))
   = 15) /\
  (In (EvClick OptionElem false)
      (trace (handle_poll (Toy.driver Toy.poll_click_fails) Toy.start)) /\
   res (handle_poll (Toy.driver Toy.poll_click_fails) Toy.start) = Ok false).
Proof.
  assert (Hq : always_offers (Toy.driver Toy.options_click_fails)
                 quiz_option_sel [quiz_start_sel; quiz_complete_sel]).
  { intros w. eexists. split; [reflexivity|]. split; [reflexivity|].
    repeat constructor. }
  assert (Ht : always_offers (Toy.driver Toy.options_click_fails)
                 trivia_option_sel [trivia_complete_sel]).
  { intros w. eexists. split; [reflexivity|]. split; [reflexivity|].
    repeat constructor. }
  assert (Hp : In (EvClick OptionElem false)
     (trace (handle_poll (Toy.driver Toy.poll_click_fails) Toy.start))).
  { cbn. auto. }
  pose proof (click_errors_by_handler (Toy.driver Toy.options_click_fails)
                Toy.start) as (Hquiz & Htrivia & _).
  pose proof (click_errors_by_handler (Toy.driver Toy.poll_click_fails)
                Toy.start) as (_ & _ & Hpoll & _).
  split; [|split].
  - split; [cbn; auto 10 | exact (proj2 Hquiz Hq)].
  - split; [cbn; auto 10 | exact (proj2 Htrivia Ht)].
  - split; [exact Hp | exact (proj1 (Hpoll Hp))].
Defined.

Lemma quiz_markers_win_witness :
  res (detect_activity_type (Toy.driver Toy.quiz_and_trivia) Toy.start)
  = Ok "quiz".
Proof.
  apply (quiz_markers_win (Toy.driver Toy.quiz_and_trivia) Toy.start);
    reflexivity.
Defined.

Lemma failed_activity_witness :
  res (run_activities (Toy.driver Toy.first_times_out)
         ([Toy.act2] ++ Toy.act1 :: [Toy.act2]) 0 Toy.start) = Ok 2 /\
  res (complete_activity (Toy.driver Toy.first_times_out) Toy.act1
         (world (run_activities (Toy.driver Toy.first_times_out) [Toy.act2]
                   0 Toy.start))) = Ok false.
Proof.
  destruct (@failed_activity_is_skipped (Toy.driver Toy.first_times_out)
              [Toy.act2] [Toy.act2] Toy.act1 Toy.start TimeoutError
              (or_introl eq_refl))
    as (Hfalse & tally & added & Ht & Ha & Hw & _).
  split; [|exact Hfalse].
  rewrite Hw. vm_compute in Ht. vm_compute in Ha.
  inversion Ht. inversion Ha. reflexivity.
Defined.

Lemma login_check_witness :
  res (_check_login_body ascii_tables (Toy.driver Toy.broken) Toy.start)
  = Raise (PlaywrightError "Target closed") /\
  res (_check_login ascii_tables (Toy.driver Toy.broken) Toy.start) = Ok true.
Proof.
  apply (@login_check_fails_open ascii_tables (Toy.driver Toy.broken)
           Toy.start (PlaywrightError "Target closed")).
  reflexivity.
Defined.

(** The alternative detector on a page of plain links: the link with too
    short a text is dropped, the points label is the first [+digits] word. *)
Example alternative_detection_run :
  res (_detect_alternative ascii_tables (Toy.driver Toy.links) Toy.start)
  = Ok Toy.links_activities.
Proof. vm_compute. reflexivity. Qed.

(** The scenario of a quiz whose options disappear after three clicks
    without a completion marker: three clicks, then the early exit, and
    success. *)
Example quiz_options_disappear :
  let o := handle_quiz (Toy.driver Toy.quiz_three) Toy.start in
  res o = Ok true /\ click_iterations (trace o) = 3 /\
  last (trace o) EvDelay = EvQueryAll quiz_generic_sel 0.
Proof. repeat split. Qed.

(** C9 fails on the code: when the dashboard cannot be reached, the
    navigation raises after the context was created; the run returns 0 and
    [close] was never called on the context, although the login-failure and
    the normal exit both call it. *)
Theorem fatal_error_leaves_context_open :
  let o := run_daily_activities ascii_tables (Toy.driver Toy.unreachable)
             (lit "msedge.exe") (lit "Default") false false Toy.start in
  res o = Ok 0 /\ context_left_open (trace o) = true.
Proof. vm_compute. split; reflexivity. Qed.

(* ------------------------------------------------------------------ *)
(** ** The exits of the run that do close the context *)

Section Closing.

Variable U : Unicode.
Variable D : Driver.

Lemma closing_bind_r A B (Q : B -> Prop) (m : M D A) (f : A -> M D B) :
  (forall x, closing Q (f x)) -> closing Q (bind m f).
Proof.
  intros Hf w b. rewrite res_bind, trace_bind, existsb_app.
  destruct (res (m w)) as [x|e]; [|discriminate].
  intros Hres HQ. rewrite (Hf x _ _ Hres HQ). apply orb_true_r.
Qed.

Lemma closing_bind_l A B (Q : B -> Prop) (m : M D A) (f : A -> M D B) :
  (forall w, existsb is_close (trace (m w)) = true) -> closing Q (bind m f).
Proof.
  intros Hm w b _ _. now rewrite trace_bind, existsb_app, Hm.
Qed.

Lemma closing_ret A (Q : A -> Prop) (a : A) : ~ Q a -> closing Q (ret (D:=D) a).
Proof. intros Hn w b E HQ. cbn in E. inversion E; subst. contradiction. Qed.

Lemma close_is_logged (context : Ctx D) w :
  existsb is_close (trace (call D (context_close D context) EvClose w)) = true.
Proof. now rewrite trace_call. Qed.

(** The login part returns from the run only after closing the context. *)
Lemma login_gate_closing (context : Ctx D) :
  closing (fun r => r <> None) (login_gate U D context).
Proof.
  unfold login_gate.
  apply closing_bind_r. intros logged_in.
  destruct logged_in; [now apply closing_ret|].
  do 3 (apply closing_bind_r; intros _).
  apply closing_bind_r. intros logged_in.
  destruct logged_in; [now apply closing_ret|].
  apply closing_bind_l. apply close_is_logged.
Qed.

Lemma finish_closes (context : Ctx D) completed w :
  existsb is_close (trace (finish D context completed w)) = true.
Proof.
  unfold finish. rewrite trace_try, existsb_app, trace_bind, existsb_app.
  now rewrite close_is_logged.
Qed.

(** Whenever the [try] block of the run ends without an exception, by the
    return after a failed login or by reaching its end, [close] was called
    on the context. *)
Lemma session_closes_on_return browser_path headless dryrun :
  closing (fun _ => True) (session U D browser_path headless dryrun).
Proof.
  unfold session.
  do 4 (apply closing_bind_r; intros ?).
  apply closing_bind_r. intros context.
  do 3 (apply closing_bind_r; intros _).
  intros w n. rewrite res_bind, trace_bind, existsb_app.
  destruct (res (login_gate U D context w)) as [r|e] eqn:E; [|discriminate].
  destruct r as [k|]; cbn [after_loop].
  - intros _ _. rewrite (@login_gate_closing context w (Some k) E);
      [reflexivity | discriminate].
  - intros Hres _. apply orb_true_iff. right.
    match goal with
    | |- existsb is_close (trace (?k ?w')) = true =>
        assert (Hk : closing (fun _ : nat => True) k);
          [|exact (Hk w' n Hres I)]
    end.
    do 3 (apply closing_bind_r; intros ?).
    intros w' m _ _. apply finish_closes.
Qed.

End Closing.

(* ------------------------------------------------------------------ *)
(** ** Kinds of events *)

Section AllEvents.

Variable D : Driver.
Variable phi : Event -> Prop.

Lemma all_nil k : all phi k [].
Proof. constructor. Qed.

Lemma all_app a b t1 t2 :
  all phi a t1 -> all phi b t2 -> all phi (a + b) (t1 ++ t2)%list.
Proof. unfold all. intros H1 H2. apply Forall_app. now split. Qed.

Lemma all_one e k : phi e -> all phi k [e].
Proof. intros H. constructor; [exact H | constructor]. Qed.

Lemma emits_weaken A (psi : Event -> Prop) (m : M D A) k k' :
  (forall e, phi e -> psi e) -> emits (all phi) k m -> emits (all psi) k' m.
Proof.
  intros Himp Hm w. unfold all. eapply Forall_impl; [exact Himp | apply Hm].
Qed.

End AllEvents.

Section Silence.

Variable D : Driver.

Lemma silent_ret A (a : A) : silent (ret (D:=D) a).
Proof. intros w. reflexivity. Qed.

Lemma silent_raise A e : silent (raise (D:=D) (A:=A) e).
Proof. intros w. reflexivity. Qed.

Lemma silent_read A (f : World D -> Res A) : silent (read D f).
Proof. intros w. reflexivity. Qed.

Lemma silent_bind A B (m : M D A) (f : A -> M D B) :
  silent m -> (forall a, silent (f a)) -> silent (bind m f).
Proof.
  intros Hm Hf w. rewrite trace_bind, Hm.
  destruct (res (m w)); [apply Hf | reflexivity].
Qed.

Lemma silent_try A (m : M D A) h :
  silent m -> (forall e, silent (h e)) -> silent (try_except m h).
Proof.
  intros Hm Hh w. rewrite trace_try, Hm.
  destruct (res (m w)); [reflexivity | apply Hh].
Qed.

Lemma emits_silent (P : nat -> list Event -> Prop) A (m : M D A) k :
  (forall k, P k []) -> silent m -> emits P k m.
Proof. intros Hnil Hm w. rewrite Hm. apply Hnil. Qed.

End Silence.

Ltac silent_go :=
  intros;
  lazymatch goal with
  | |- silent (bind _ _) => apply silent_bind; silent_go
  | |- silent (try_except _ _) => apply silent_try; silent_go
  | |- silent (ret _) => apply silent_ret
  | |- silent (raise _) => apply silent_raise
  | |- silent (read _ _) => apply silent_read
  | |- silent (query_selector _ _) => apply silent_read
  | |- silent (if ?b then _ else _) => destruct b; silent_go
  | |- silent (match ?x with _ => _ end) => destruct x; silent_go
  | |- _ => idtac
  end.

Create HintDb events.

Ltac all_side :=
  first [ solve [intros; apply all_nil]
        | solve [intros; apply all_app; assumption]
        | solve [reflexivity]
        | solve [intros; apply all_one; cbn; auto]
        | solve [auto with events] ].

Ltac all_go :=
  intros;
  lazymatch goal with
  | |- emits _ _ (bind _ _) =>
      eapply emits_bind with (a := 0) (b := 0); all_go
  | |- emits _ _ (try_except _ _) =>
      eapply emits_try with (a := 0) (b := 0); all_go
  | |- emits _ _ (ret _) => apply emits_ret; all_side
  | |- emits _ _ (raise _) => apply emits_raise; all_side
  | |- emits _ _ (read _ _) => apply emits_read; all_side
  | |- emits _ _ (call _ _ _) => apply emits_call; all_side
  | |- emits _ _ (query_selector _ _) => apply emits_query_selector; all_side
  | |- emits _ _ (query_selector_all _ _) =>
      apply emits_query_selector_all; all_side
  | |- emits _ _ (or_else_query _ _ _) => apply emits_or_else_query; all_side
  | |- emits _ _ (_random_delay _ _ _) => apply emits_random_delay; all_side
  | |- emits _ _ (random_choice _ _) => apply emits_random_choice; all_side
  | |- emits _ _ (goto _ _ _) => apply emits_call; all_side
  | |- emits _ _ (click _ _ _) => apply emits_call; all_side
  | |- emits _ _ (if ?b then _ else _) => destruct b; all_go
  | |- emits _ _ (match ?x with _ => _ end) => destruct x; all_go
  | |- _ => all_side
  end.

(* ------------------------------------------------------------------ *)
(** ** What the handlers and the classifier do to the page *)

Section PageOnly.

Variable D : Driver.

Lemma wait_for_page_load_page t :
  emits (all page_event) 0 (_wait_for_page_load D t).
Proof. unfold _wait_for_page_load. all_go. Qed.

Lemma any_selector_silent sels : silent (any_selector D sels).
Proof. induction sels as [|sel sels IH]; cbn [any_selector]; silent_go. exact IH. Qed.

Lemma detect_activity_type_page :
  emits (all page_event) 0 (detect_activity_type D).
Proof.
  unfold detect_activity_type.
  eapply emits_bind with (a := 0) (b := 0); try all_side.
  { apply wait_for_page_load_page. }
  intros _. eapply emits_bind with (a := 0) (b := 0); try all_side.
  { all_go. }
  intros _. apply emits_silent; [all_side|].
  repeat (apply silent_bind; [apply any_selector_silent|]; intros []);
    silent_go.
Qed.

Lemma click_guarded_page c : emits (all page_event) 0 (click_guarded D c).
Proof. unfold click_guarded. all_go. Qed.

Lemma quiz_loop_page n : emits (all page_event) 0 (quiz_loop D n).
Proof.
  induction n as [|n IH]; cbn [quiz_loop]; [all_go|].
  do 2 (eapply emits_bind with (a := 0) (b := 0); try all_side;
        [all_go|]; intros ?).
  match goal with |- emits _ _ (if ?b then _ else _) => destruct b end;
    [all_go|].
  eapply emits_bind with (a := 0) (b := 0); try all_side; [all_go|].
  intros choice.
  eapply emits_bind with (a := 0) (b := 0); try all_side;
    [apply click_guarded_page|].
  intros _.
  do 2 (eapply emits_bind with (a := 0) (b := 0); try all_side;
        [all_go|]; intros ?).
  match goal with |- emits _ _ (if ?b then _ else _) => destruct b end;
    [all_go | exact IH].
Qed.

Lemma trivia_loop_page n : emits (all page_event) 0 (trivia_loop D n).
Proof.
  induction n as [|n IH]; cbn [trivia_loop]; [all_go|].
  eapply emits_bind with (a := 0) (b := 0); try all_side; [all_go|].
  intros options. destruct (is_nil options); [all_go|].
  eapply emits_bind with (a := 0) (b := 0); try all_side; [all_go|].
  intros choice.
  eapply emits_bind with (a := 0) (b := 0); try all_side;
    [apply click_guarded_page|].
  intros _.
  do 2 (eapply emits_bind with (a := 0) (b := 0); try all_side;
        [all_go|]; intros ?).
  match goal with |- emits _ _ (if ?b then _ else _) => destruct b end;
    [all_go | exact IH].
Qed.

Lemma handle_quiz_page : emits (all page_event) 0 (handle_quiz D).
Proof.
  unfold handle_quiz, handle_quiz_body.
  eapply emits_try with (a := 0) (b := 0); try all_side; [|all_go].
  do 2 (eapply emits_bind with (a := 0) (b := 0); try all_side;
        [all_go|]; intros ?).
  eapply emits_bind with (a := 0) (b := 0); try all_side;
    [apply quiz_loop_page|].
  intros r. unfold after_loop. all_go.
Qed.

Lemma handle_trivia_page : emits (all page_event) 0 (handle_trivia D).
Proof.
  unfold handle_trivia, handle_trivia_body.
  eapply emits_try with (a := 0) (b := 0); try all_side; [|all_go].
  eapply emits_bind with (a := 0) (b := 0); try all_side;
    [apply trivia_loop_page|].
  intros r. unfold after_loop. all_go.
Qed.

Lemma handle_poll_page : emits (all page_event) 0 (handle_poll D).
Proof. unfold handle_poll, handle_poll_body. all_go. Qed.

Lemma handle_click_only_page : emits (all page_event) 0 (handle_click_only D).
Proof.
  unfold handle_click_only, handle_click_only_body.
  eapply emits_try with (a := 0) (b := 0); try all_side; [|all_go].
  eapply emits_bind with (a := 0) (b := 0); try all_side;
    [apply wait_for_page_load_page|].
  all_go.
Qed.

Lemma handlers_get_page t : emits (all page_event) 0 (handlers_get D t).
Proof.
  unfold handlers_get.
  repeat match goal with
         | |- emits _ _ (if ?b then _ else _) => destruct b
         end.
  - apply handle_quiz_page.
  - apply handle_poll_page.
  - apply handle_trivia_page.
  - apply handle_click_only_page.
Qed.

(** X1. The classifier and the four handlers act on the page they are given
    and on nothing else: every driver call they make is a query, a choice, a
    click, a delay, a load wait or a script evaluation.  They never
    navigate, never wait for input, and never launch or close the browser
    context. *)
Theorem handlers_stay_on_page (w : World D) :
  Forall page_event (trace (detect_activity_type D w)) /\
  Forall page_event (trace (handle_quiz D w)) /\
  Forall page_event (trace (handle_poll D w)) /\
  Forall page_event (trace (handle_trivia D w)) /\
  Forall page_event (trace (handle_click_only D w)).
Proof.
  repeat split.
  - apply detect_activity_type_page.
  - apply handle_quiz_page.
  - apply handle_poll_page.
  - apply handle_trivia_page.
  - apply handle_click_only_page.
Qed.

End PageOnly.

(* ------------------------------------------------------------------ *)
(** ** The click-only handler and the handling of one activity *)

Section OneActivity.

Variable D : Driver.

Lemma handle_click_only_no_click :
  emits (all (fun e => match e with
                       | EvClick _ _ | EvChoice | EvQueryAll _ _ => False
                       | _ => True
                       end)) 0 (handle_click_only D).
Proof.
  unfold handle_click_only, handle_click_only_body, _wait_for_page_load.
  all_go.
Qed.

(** X2. The click-only handler answers true exactly when the page
    evaluated the scroll script, run after the load wait and the delay,
    whether or not the load wait raised; and the handler queries nothing
    and clicks nothing. *)
Theorem click_only_succeeds_iff_scroll_runs (w : World D) :
  let w1 := sleep_uniform D 3000 5000 (world (_wait_for_page_load D 10000 w)) in
  (res (handle_click_only D w) = Ok true <->
   is_ok (fst (page_evaluate D "window.scrollBy(0, 300)" w1)) = true) /\
  Forall (fun e => match e with
                   | EvClick _ _ | EvChoice | EvQueryAll _ _ => False
                   | _ => True
                   end) (trace (handle_click_only D w)).
Proof.
  intros w1. split; [|apply handle_click_only_no_click].
  unfold handle_click_only, handle_click_only_body.
  rewrite res_try, res_bind, res_wait_for_page_load, res_bind.
  cbn [_random_delay res world]. fold w1.
  rewrite res_bind, res_call.
  destruct (fst (page_evaluate D "window.scrollBy(0, 300)" w1)) as [[]|e];
    cbn; split; (reflexivity || discriminate).
Qed.

Lemma page_event_of_activity a e : page_event e -> activity_event a e.
Proof. destruct e; cbn; auto; contradiction. Qed.

Lemma complete_activity_events a :
  emits (all (activity_event a)) 0 (complete_activity D a).
Proof.
  unfold complete_activity, complete_activity_body.
  eapply emits_bind with (a := 0) (b := 0); try all_side.
  { intros w. apply all_one. reflexivity. }
  intros _.
  eapply emits_try with (a := 0) (b := 0); try all_side; [|all_go].
  do 2 (eapply emits_bind with (a := 0) (b := 0); try all_side;
        [all_go|]; intros ?).
  eapply emits_bind with (a := 0) (b := 0); try all_side.
  - eapply emits_weaken; [apply page_event_of_activity|].
    apply detect_activity_type_page.
  - intros t. eapply emits_weaken; [apply page_event_of_activity|].
    apply handlers_get_page.
Qed.

Lemma full_url_absolute a : startswith (lit "http") (full_url a) = true.
Proof.
  unfold full_url. destruct (startswith (lit "http") (url a)) eqn:E.
  - exact E.
  - reflexivity.
Qed.

(** X3. Handling one activity announces no other activity and navigates
    nowhere but to the activity's own address, made absolute: the address
    navigated to always starts with http. *)
Theorem complete_activity_navigates_to_its_url (a : Activity) (w : World D) :
  Forall (activity_event a) (trace (complete_activity D a w)) /\
  startswith (lit "http") (full_url a) = true.
Proof.
  split; [apply complete_activity_events|].
  apply full_url_absolute.
Qed.

End OneActivity.

(* ------------------------------------------------------------------ *)
(** ** Programs that log nothing *)

Create HintDb silents.

Section SilentPrograms.

Variable U : Unicode.
Variable D : Driver.

Lemma _check_login_silent : silent (_check_login U D).
Proof. unfold _check_login, _check_login_body. silent_go. Qed.

Lemma _get_bot_data_dir_silent : silent (_get_bot_data_dir D).
Proof. unfold _get_bot_data_dir. silent_go. Qed.

Lemma autodetect_silent browser_path : silent (autodetect D browser_path).
Proof. unfold autodetect. silent_go. Qed.

Lemma stripped_text_of_silent el : silent (stripped_text_of U D el).
Proof. unfold stripped_text_of. silent_go. Qed.

Lemma parse_card_silent card : silent (parse_card U D card).
Proof.
  unfold parse_card.
  apply silent_bind; [silent_go|]. intros title_el.
  apply silent_bind; [apply stripped_text_of_silent|]. intros title.
  apply silent_bind; [silent_go|]. intros title'.
  match goal with |- silent (if ?b then _ else _) => destruct b end;
    [silent_go|].
  apply silent_bind; [silent_go|]. intros points_el.
  apply silent_bind; [apply stripped_text_of_silent|]. intros points.
  silent_go.
Qed.

Lemma parse_link_silent link : silent (parse_link U D link).
Proof.
  unfold parse_link.
  apply silent_bind; [silent_go|]. intros h.
  apply silent_bind; [silent_go|]. intros txt.
  cbn zeta.
  repeat match goal with
         | |- silent (if ?b then _ else _) => destruct b
         end; silent_go.
Qed.

Lemma scan_silent (parse : Elem D -> M D (option Activity)) xs :
  (forall x, silent (parse x)) -> forall acts, silent (scan parse xs acts).
Proof.
  intros Hparse. induction xs as [|x xs IH]; intros acts; cbn [scan].
  - apply silent_ret.
  - apply silent_bind.
    + apply silent_try; [apply Hparse | intros; apply silent_ret].
    + intros r. apply IH.
Qed.

End SilentPrograms.

#[local] Hint Resolve _check_login_silent _get_bot_data_dir_silent
  autodetect_silent parse_card_silent parse_link_silent : silents.

(* ------------------------------------------------------------------ *)
(** ** The tally of a run *)

Section Tally.

Variable U : Unicode.
Variable D : Driver.

Lemma opened_app t1 t2 : opened (t1 ++ t2) = opened t1 + opened t2.
Proof. unfold opened. now rewrite filter_app, length_app. Qed.

Lemma opened_announced a t : In (EvActivity a) t -> 1 <= opened t.
Proof.
  unfold opened. induction t as [|e t IH]; [intros []|].
  intros [->|H]; cbn.
  - lia.
  - specialize (IH H). destruct (is_activity e); cbn; lia.
Qed.

Lemma tally_bind_r A (m : M D A) (f : A -> M D nat) :
  (forall x, tally_within (f x)) -> tally_within (bind m f).
Proof.
  intros Hf w n. rewrite res_bind, trace_bind, opened_app.
  destruct (res (m w)) as [x|e]; [|discriminate].
  intros H. apply Hf in H. lia.
Qed.

Lemma tally_bind_l (m : M D nat) (f : nat -> M D nat) :
  tally_within m ->
  (forall a w b, res (f a w) = Ok b -> b <= a) ->
  tally_within (bind m f).
Proof.
  intros Hm Hf w n. rewrite res_bind, trace_bind, opened_app.
  destruct (res (m w)) as [a|e] eqn:E; [|discriminate].
  intros H. apply Hf in H. apply Hm in E. lia.
Qed.

Lemma tally_ret_zero : tally_within (ret (D:=D) 0).
Proof. intros w n H. cbn in H. inversion H. lia. Qed.

Lemma tally_try (m : M D nat) :
  tally_within m -> tally_within (try_except m (fun _ => ret 0)).
Proof.
  intros Hm w n. rewrite res_try, trace_try, opened_app.
  destruct (res (m w)) as [a|e] eqn:E.
  - intros H. inversion H; subst a. apply Hm in E. lia.
  - cbn. intros H. inversion H. lia.
Qed.

(** The loop adds at most one to the tally for each activity it opens. *)
Lemma run_activities_tally acts : forall completed w n,
  res (run_activities D acts completed w) = Ok n ->
  n <= completed + opened (trace (run_activities D acts completed w)).
Proof.
  induction acts as [|act rest IH]; intros completed w n.
  - cbn. intros H. inversion H. lia.
  - destruct (run_activities_cons D act rest completed w)
      as (success & w' & mid & _ & E).
    cbn zeta in E. rewrite E. cbn [res trace]. intros H.
    apply IH in H. rewrite !opened_app.
    pose proof (opened_announced _ _ (announce_first D act w)).
    destruct success; lia.
Qed.

Lemma finish_returns_tally (context : Ctx D) completed w b :
  res (finish D context completed w) = Ok b -> b <= completed.
Proof.
  unfold finish. rewrite res_try, res_bind.
  destruct (res (call D (context_close D context) EvClose w));
    cbn; intros H; inversion H; lia.
Qed.

(** The login part returns from the run with 0 only. *)
Lemma login_gate_returns_zero (context : Ctx D) w n :
  res (login_gate U D context w) = Ok (Some n) -> n = 0.
Proof.
  unfold login_gate. intros H.
  apply bind_inv in H. destruct H as ([] & _ & H); [discriminate|].
  do 3 invert_bind H.
  apply bind_inv in H. destruct H as ([] & _ & H); [discriminate|].
  invert_bind H. cbn in H. now inversion H.
Qed.

Lemma session_tally browser_path headless dryrun :
  tally_within (session U D browser_path headless dryrun).
Proof.
  unfold session.
  do 4 (apply tally_bind_r; intros ?).
  apply tally_bind_r. intros context.
  do 3 (apply tally_bind_r; intros _).
  intros w n. rewrite res_bind, trace_bind, opened_app.
  destruct (res (login_gate U D context w)) as [r|e] eqn:E; [|discriminate].
  destruct r as [k|]; cbn [after_loop].
  - apply login_gate_returns_zero in E. subst k. cbn.
    intros H. inversion H. lia.
  - intros H.
    match type of H with
    | res (?k ?w') = _ =>
        assert (Hk : tally_within k); [|apply Hk in H; lia]
    end.
    do 2 (apply tally_bind_r; intros ?).
    apply tally_bind_l; [|intros; eapply finish_returns_tally; eauto].
    repeat match goal with
           | |- tally_within (if ?b then _ else _) => destruct b
           end; try apply tally_ret_zero.
    intros w' k. intros Hr. now apply run_activities_tally in Hr.
Qed.

(** X4. The count a run returns never exceeds the number of activities it
    opened. *)
Theorem tally_never_exceeds_opened (browser_path profile : pystr)
    (headless dryrun : bool) (w : World D) (n : nat) :
  res (run_daily_activities U D browser_path profile headless dryrun w)
  = Ok n ->
  n <= opened
         (trace (run_daily_activities U D browser_path profile headless
                   dryrun w)).
Proof.
  revert w n.
  change (tally_within
            (run_daily_activities U D browser_path profile headless dryrun)).
  unfold run_daily_activities.
  apply tally_bind_r. intros bp.
  destruct (negb (truthy bp)); [apply tally_ret_zero|].
  apply tally_bind_r. intros _.
  apply tally_bind_l; [apply tally_try, session_tally|].
  intros a w b H. invert_bind H. cbn in H. inversion H. lia.
Qed.

End Tally.

(* ------------------------------------------------------------------ *)
(** ** The dry run *)

Section DryRun.

Variable U : Unicode.
Variable D : Driver.

Lemma wait_for_page_load_passive t :
  emits (all passive_event) 0 (_wait_for_page_load D t).
Proof. unfold _wait_for_page_load. all_go. Qed.

Lemma scan_passive (parse : Elem D -> M D (option Activity)) xs acts :
  (forall x, silent (parse x)) ->
  emits (all passive_event) 0 (scan parse xs acts).
Proof.
  intros H. apply emits_silent; [all_side|]. now apply scan_silent.
Qed.

Lemma detect_activities_passive :
  emits (all passive_event) 0 (detect_activities U D).
Proof.
  unfold detect_activities.
  eapply emits_bind with (a := 0) (b := 0); try all_side;
    [apply wait_for_page_load_passive|]. intros _.
  do 4 (eapply emits_bind with (a := 0) (b := 0); try all_side;
        [all_go|]; intros ?).
  apply scan_passive. apply parse_card_silent.
Qed.

Lemma _detect_alternative_passive :
  emits (all passive_event) 0 (_detect_alternative U D).
Proof.
  unfold _detect_alternative.
  eapply emits_try with (a := 0) (b := 0); try all_side; [|all_go].
  eapply emits_bind with (a := 0) (b := 0); try all_side; [all_go|].
  intros links. apply scan_passive. apply parse_link_silent.
Qed.

Lemma _check_login_passive : emits (all passive_event) 0 (_check_login U D).
Proof. apply emits_silent; [all_side | apply _check_login_silent]. Qed.

Lemma login_gate_passive context :
  emits (all passive_event) 0 (login_gate U D context).
Proof.
  unfold login_gate.
  eapply emits_bind with (a := 0) (b := 0); try all_side;
    [apply _check_login_passive|]. intros [|]; [all_go|].
  do 3 (eapply emits_bind with (a := 0) (b := 0); try all_side;
        [all_go|]; intros ?).
  eapply emits_bind with (a := 0) (b := 0); try all_side;
    [apply _check_login_passive|]. intros [|]; all_go.
Qed.

Lemma finish_passive context completed :
  emits (all passive_event) 0 (finish D context completed).
Proof. unfold finish. all_go. Qed.

Lemma session_dry_passive browser_path headless :
  emits (all passive_event) 0 (session U D browser_path headless true).
Proof.
  unfold session.
  eapply emits_bind with (a := 0) (b := 0); try all_side.
  { apply emits_silent; [all_side | apply _get_bot_data_dir_silent]. }
  intros bot_data_dir.
  do 7 (eapply emits_bind with (a := 0) (b := 0); try all_side;
        [all_go|]; intros ?).
  eapply emits_bind with (a := 0) (b := 0); try all_side;
    [apply login_gate_passive|].
  intros r. destruct r as [k|]; cbn [after_loop]; [all_go|].
  eapply emits_bind with (a := 0) (b := 0); try all_side;
    [apply detect_activities_passive|]. intros activities.
  eapply emits_bind with (a := 0) (b := 0); try all_side.
  { destruct (is_nil activities);
      [apply _detect_alternative_passive | all_go]. }
  intros activities'.
  eapply emits_bind with (a := 0) (b := 0); try all_side.
  { destruct (is_nil activities'); all_go. }
  intros completed. apply finish_passive.
Qed.

Lemma session_dry_returns_zero browser_path headless w n :
  res (session U D browser_path headless true w) = Ok n -> n = 0.
Proof.
  unfold session. intros H. do 8 invert_bind H.
  apply bind_inv in H. destruct H as (r & E & H).
  destruct r as [k|]; cbn [after_loop] in H.
  - apply login_gate_returns_zero in E. cbn in H. inversion H. congruence.
  - do 2 invert_bind H.
    apply bind_inv in H. destruct H as (completed & Ec & H).
    apply finish_returns_tally in H.
    assert (completed = 0); [|lia].
    revert Ec.
    match goal with
    | |- res ((if ?b then _ else _) _) = _ -> _ => destruct b
    end; cbn; intros Ec; now inversion Ec.
Qed.

(** X5. A dry run opens no activity, chooses and clicks nothing and
    evaluates no script, whatever the page shows; when it returns, it
    returns 0. *)
Theorem dry_run_touches_nothing (browser_path profile : pystr)
    (headless : bool) (w : World D) :
  let o := run_daily_activities U D browser_path profile headless true w in
  Forall passive_event (trace o) /\
  match res o with Ok n => n = 0 | Raise _ => True end.
Proof.
  cbn zeta. split.
  - revert w.
    change (emits (all passive_event) 0
              (run_daily_activities U D browser_path profile headless true)).
    unfold run_daily_activities.
    eapply emits_bind with (a := 0) (b := 0); try all_side.
    { apply emits_silent; [all_side | apply autodetect_silent]. }
    intros bp. destruct (negb (truthy bp)); [all_go|].
    eapply emits_bind with (a := 0) (b := 0); try all_side; [all_go|].
    intros _.
    eapply emits_bind with (a := 0) (b := 0); try all_side; [|all_go].
    eapply emits_try with (a := 0) (b := 0); try all_side; [|all_go].
    apply session_dry_passive.
  - destruct (res (run_daily_activities U D browser_path profile headless
                     true w)) as [n|e] eqn:E; [|exact I].
    unfold run_daily_activities in E. invert_bind E.
    match type of E with
    | res ((if ?b then _ else _) _) = _ => destruct b
    end; [cbn in E; now inversion E|].
    invert_bind E.
    apply bind_inv in E. destruct E as (completed & Ec & E).
    invert_bind E. cbn in E. inversion E; subst n.
    rewrite res_try in Ec.
    match type of Ec with
    | match res (?s ?w') with _ => _ end = _ =>
        destruct (res (s w')) as [k|e] eqn:Es
    end.
    + inversion Ec; subst k. now apply session_dry_returns_zero in Es.
    + cbn in Ec. now inversion Ec.
Qed.

(** X6. Whenever the try block of the run ends without an exception, by
    the return after a second failed login check or by reaching its end,
    close was called on the browser context. *)
Theorem try_block_return_closes_context (browser_path : pystr)
    (headless dryrun : bool) (w : World D) (n : nat) :
  res (session U D browser_path headless dryrun w) = Ok n ->
  existsb is_close (trace (session U D browser_path headless dryrun w))
  = true.
Proof.
  intros H. exact (@session_closes_on_return U D browser_path headless dryrun
                     w n H I).
Qed.

End DryRun.

(* ------------------------------------------------------------------ *)
(** ** The directory the browser is launched on *)

Section Launch.

Variable U : Unicode.
Variable D : Driver.

Lemma detect_activities_queries :
  emits (all query_event) 0 (detect_activities U D).
Proof.
  unfold detect_activities, _wait_for_page_load.
  do 5 (eapply emits_bind with (a := 0) (b := 0); try all_side;
        [all_go|]; intros ?).
  apply emits_silent; [all_side|]. apply scan_silent, parse_card_silent.
Qed.

Lemma _detect_alternative_queries :
  emits (all query_event) 0 (_detect_alternative U D).
Proof.
  unfold _detect_alternative.
  eapply emits_try with (a := 0) (b := 0); try all_side; [|all_go].
  eapply emits_bind with (a := 0) (b := 0); try all_side; [all_go|].
  intros links. apply emits_silent; [all_side|].
  apply scan_silent, parse_link_silent.
Qed.

Lemma login_gate_events context :
  emits (all gate_event) 0 (login_gate U D context).
Proof.
  unfold login_gate.
  eapply emits_bind with (a := 0) (b := 0); try all_side.
  { apply emits_silent; [all_side | apply _check_login_silent]. }
  intros [|]; [all_go|].
  do 3 (eapply emits_bind with (a := 0) (b := 0); try all_side;
        [all_go|]; intros ?).
  eapply emits_bind with (a := 0) (b := 0); try all_side.
  { apply emits_silent; [all_side | apply _check_login_silent]. }
  intros [|]; all_go.
Qed.

Lemma finish_events context completed :
  emits (all gate_event) 0 (finish D context completed).
Proof. unfold finish. all_go. Qed.

Lemma loop_event_of_activity a e : activity_event a e -> loop_event e.
Proof. destruct e; cbn; auto. Qed.

Lemma run_activities_events acts : forall completed,
  emits (all loop_event) 0 (run_activities D acts completed).
Proof.
  induction acts as [|act rest IH]; intros completed; cbn [run_activities];
    [all_go|].
  eapply emits_bind with (a := 0) (b := 0); try all_side.
  { eapply emits_weaken; [apply loop_event_of_activity|].
    apply complete_activity_events. }
  intros success.
  eapply emits_bind with (a := 0) (b := 0); try all_side; [all_go|].
  intros _.
  eapply emits_bind with (a := 0) (b := 0); try all_side.
  unfold back_to_dashboard. all_go.
Qed.

Lemma dedicated_of_query e : query_event e -> dedicated e.
Proof. destruct e; cbn; auto; contradiction. Qed.

Lemma dedicated_of_gate e : gate_event e -> dedicated e.
Proof. destruct e; cbn; auto; contradiction. Qed.

Lemma dedicated_of_loop e : loop_event e -> dedicated e.
Proof. destruct e; cbn; auto; contradiction. Qed.

Lemma _get_bot_data_dir_shape w dir :
  res (_get_bot_data_dir D w) = Ok dir ->
  exists base, dir = path_div (path_div base "BingRewardsBot") "User Data".
Proof.
  unfold _get_bot_data_dir. intros H.
  apply bind_inv in H. destruct H as (home & _ & H).
  apply bind_inv in H. destruct H as (base & _ & H).
  cbn in H. inversion H. now exists base.
Qed.

(** A silent first step whose result is known to satisfy [R]. *)
Lemma emits_after_silent (P : nat -> list Event -> Prop) A B
    (m : M D A) (f : A -> M D B) (R : A -> Prop) k :
  silent m ->
  (forall w x, res (m w) = Ok x -> R x) ->
  (forall x, R x -> emits P k (f x)) ->
  (forall k, P k []) ->
  emits P k (bind m f).
Proof.
  intros Hs HR Hf Hnil w. rewrite trace_bind, Hs. cbn [app].
  destruct (res (m w)) as [x|e] eqn:E; [|apply Hnil].
  apply Hf. now apply HR with (w := w).
Qed.

Lemma session_dedicated browser_path headless dryrun :
  emits (all dedicated) 0 (session U D browser_path headless dryrun).
Proof.
  unfold session.
  apply emits_after_silent
    with (R := fun dir => exists base,
                 dir = path_div (path_div base "BingRewardsBot") "User Data");
    [apply _get_bot_data_dir_silent | apply _get_bot_data_dir_shape | |
     all_side].
  intros bot_data_dir Hdir.
  do 3 (eapply emits_bind with (a := 0) (b := 0); try all_side;
        [all_go|]; intros ?).
  eapply emits_bind with (a := 0) (b := 0); try all_side.
  { apply emits_call. intros b. apply all_one. exact Hdir. }
  intros context.
  do 3 (eapply emits_bind with (a := 0) (b := 0); try all_side;
        [all_go|]; intros ?).
  eapply emits_bind with (a := 0) (b := 0); try all_side.
  { eapply emits_weaken; [apply dedicated_of_gate|].
    apply login_gate_events. }
  intros r. destruct r as [k|]; cbn [after_loop]; [all_go|].
  eapply emits_bind with (a := 0) (b := 0); try all_side.
  { eapply emits_weaken; [apply dedicated_of_query|].
    apply detect_activities_queries. }
  intros activities.
  eapply emits_bind with (a := 0) (b := 0); try all_side.
  { destruct (is_nil activities); [|all_go].
    eapply emits_weaken; [apply dedicated_of_query|].
    apply _detect_alternative_queries. }
  intros activities'.
  eapply emits_bind with (a := 0) (b := 0); try all_side.
  { destruct (is_nil activities'); [all_go|].
    destruct dryrun; [all_go|].
    eapply emits_weaken; [apply dedicated_of_loop|].
    apply run_activities_events. }
  intros completed.
  eapply emits_weaken; [apply dedicated_of_gate|]. apply finish_events.
Qed.

(** X7. Whatever its arguments and whatever the page shows, a run launches
    the browser only on the dedicated directory that ends in
    BingRewardsBot/User Data. *)
Theorem launch_only_on_dedicated_directory (browser_path profile : pystr)
    (headless dryrun : bool) (w : World D) :
  Forall dedicated
    (trace (run_daily_activities U D browser_path profile headless dryrun w)).
Proof.
  revert w.
  change (emits (all dedicated) 0
            (run_daily_activities U D browser_path profile headless dryrun)).
  unfold run_daily_activities.
  eapply emits_bind with (a := 0) (b := 0); try all_side.
  { apply emits_silent; [all_side | apply autodetect_silent]. }
  intros bp. destruct (negb (truthy bp)); [all_go|].
  eapply emits_bind with (a := 0) (b := 0); try all_side; [all_go|].
  intros _.
  eapply emits_bind with (a := 0) (b := 0); try all_side; [|all_go].
  eapply emits_try with (a := 0) (b := 0); try all_side; [|all_go].
  apply session_dedicated.
Qed.

End Launch.

(* ------------------------------------------------------------------ *)
(** ** The login check and the login part of the run *)

Section LoginGate.

Variable U : Unicode.
Variable D : Driver.

(** X8. On a page whose DOM and content can be read, the login check
    answers false exactly when there is no user marker, the content does
    not hold both keywords, and a sign-in element is present; in
    particular a page showing none of the three counts as logged in. *)
Theorem login_check_decision (w : World D) dom (content : pystr) :
  page_dom D w = Ok dom ->
  page_content D w = Ok content ->
  res (_check_login U D w) =
  Ok (user_marker dom || rewards_content U content
      || negb (sign_in_marker dom)).
Proof.
  intros Hdom Hcontent.
  unfold _check_login. rewrite res_try.
  assert (E : res (_check_login_body U D w) =
              Ok (user_marker dom || rewards_content U content
                  || negb (sign_in_marker dom))).
  { unfold _check_login_body, user_marker, sign_in_marker.
    rewrite res_bind. unfold query_selector, read. cbn [res world].
    rewrite Hdom.
    destruct (dom login_user_sel) as [|u us];
      cbn [hd_error is_some is_nil negb orb]; [|reflexivity].
    rewrite res_bind. cbn [res world]. rewrite Hcontent.
    fold (rewards_content U content).
    destruct (rewards_content U content); cbn [orb]; [reflexivity|].
    rewrite res_bind. cbn [res world]. rewrite Hdom.
    destruct (dom login_signin_sel); reflexivity. }
  now rewrite E.
Qed.


End LoginGate.

(* ------------------------------------------------------------------ *)
(** ** Finding the browser *)

Section Autodetect.

Variable U : Unicode.
Variable D : Driver.

Lemma dict_get_not_in k (d : list (string * pystr)) :
  ~ In k (map fst d) -> dict_get k d = None.
Proof.
  induction d as [|[k' v] d IH]; [reflexivity|]. cbn. intros H.
  destruct (String.eqb_spec k k') as [->|Hne]; [tauto|]. apply IH. tauto.
Qed.

Lemma dict_get_permutation k (d d' : list (string * pystr)) :
  NoDup (map fst d) -> Permutation d d' -> dict_get k d = dict_get k d'.
Proof.
  intros Hnd Hp. induction Hp as [|[k1 v1] l l' Hp IH
                                   |[k1 v1] [k2 v2] l
                                   |l l' l'' Hp1 IH1 Hp2 IH2].
  - reflexivity.
  - cbn in *. inversion Hnd; subst. now rewrite IH.
  - cbn in *. inversion Hnd as [|? ? Hin _]; subst.
    destruct (String.eqb_spec k k1) as [->|]; [|reflexivity].
    destruct (String.eqb_spec k1 k2) as [->|]; [|reflexivity].
    exfalso. apply Hin. now left.
  - rewrite IH1 by exact Hnd. apply IH2.
    apply Permutation_NoDup with (l := map fst l); [|exact Hnd].
    now apply Permutation_map.
Qed.

(** X10. The browser picked from a scan does not depend on the order in
    which the scan lists the browsers it found: with distinct keys, any
    reordering of the scan result gives the same executable, decided by the
    preference edge, chrome, brave. *)
Theorem preferred_browser_ignores_scan_order
    (browsers browsers' : list (string * pystr)) (browser_path : pystr) :
  NoDup (map fst browsers) ->
  Permutation browsers browsers' ->
  pick_preferred ["edge"; "chrome"; "brave"] browsers browser_path =
  pick_preferred ["edge"; "chrome"; "brave"] browsers' browser_path.
Proof.
  intros Hnd Hp. cbn [pick_preferred].
  now rewrite !(dict_get_permutation _ Hnd Hp).
Qed.

(** X11. With no browser path given, when the scan for browsers raises or
    finds nothing, the run returns 0 at once: nothing is started, launched
    or logged, and the world is as it was. *)
Theorem no_browser_nothing_started (profile : pystr) (headless dryrun : bool)
    (w : World D) :
  (exists e, scan_system D w = Raise e) \/ scan_system D w = Ok [] ->
  run_daily_activities U D [] profile headless dryrun w = mkOut (Ok 0) w [].
Proof.
  intros H. unfold run_daily_activities, autodetect, bind, try_except, read.
  cbn [truthy res world trace].
  destruct H as [[e H]|H]; rewrite H; reflexivity.
Qed.

End Autodetect.

(* ------------------------------------------------------------------ *)
(** ** Robustness and shape of detection *)

Section DetectionShape.

Variable U : Unicode.
Variable D : Driver.

(** The scan never raises, keeps a property its parser ensures, and adds at
    most one activity per element. *)
Lemma scan_keeps (P : Activity -> Prop)
    (parse : Elem D -> M D (option Activity)) :
  (forall x w a, res (parse x w) = Ok (Some a) -> P a) ->
  forall xs activities w,
    Forall P activities ->
    exists out, res (scan parse xs activities w) = Ok out /\
                Forall P out /\
                List.length out <= List.length activities + List.length xs.
Proof.
  intros Hparse. induction xs as [|x xs IH]; intros activities w Hacts.
  - exists activities. cbn. repeat split; auto. lia.
  - cbn [scan]. rewrite res_bind, res_try.
    destruct (res (parse x w)) as [[a|]|e] eqn:E; cbn [ret res].
    + destruct (IH (activities ++ [a])%list
                  (world (try_except (parse x) (fun _ => ret None) w)))
        as (out & Ho & HP & Hl).
      { apply Forall_app. split; [exact Hacts|].
        constructor; [now apply Hparse with (x := x) (w := w) | constructor]. }
      exists out. repeat split; auto.
      rewrite length_app in Hl. cbn in *. lia.
    + destruct (IH activities
                  (world (try_except (parse x) (fun _ => ret None) w)) Hacts)
        as (out & Ho & HP & Hl).
      exists out. repeat split; auto. cbn. lia.
    + destruct (IH activities
                  (world (try_except (parse x) (fun _ => ret None) w)) Hacts)
        as (out & Ho & HP & Hl).
      exists out. repeat split; auto. cbn. lia.
Qed.

Lemma or_else_query_readable first sel w dom :
  page_dom D w = Ok dom ->
  res (or_else_query D first sel w)
  = Ok (if is_nil first then dom sel else first) /\
  world (or_else_query D first sel w) = w.
Proof.
  intros Hdom. unfold or_else_query. destruct (is_nil first).
  - now rewrite res_query_selector_all, world_query_selector_all, Hdom.
  - split; reflexivity.
Qed.

(** X12. On a dashboard whose DOM can be read, detection returns a list
    whatever the cards do, even when the extraction of every card raises,
    and the list has at most one activity per element matched by the first
    of the three card selectors that matches anything.  When the DOM cannot
    be read, the driver's exception leaves the detector. *)
Theorem detection_survives_broken_cards (w : World D) :
  match page_dom D (dashboard_state w) with
  | Ok dom =>
      exists acts,
        res (detect_activities U D w) = Ok acts /\
        List.length acts <= List.length (first_nonempty dom card_selectors)
  | Raise e => res (detect_activities U D w) = Raise e
  end.
Proof.
  unfold detect_activities.
  rewrite res_bind, res_wait_for_page_load, res_bind.
  cbn [_random_delay res world]. fold (dashboard_state w).
  rewrite res_bind, res_query_selector_all, world_query_selector_all.
  destruct (page_dom D (dashboard_state w)) as [dom|e] eqn:Hdom;
    [|reflexivity].
  rewrite res_bind.
  destruct (or_else_query_readable (dom "mee-card")
              "[class*='card'], [class*='Card']" (dashboard_state w) Hdom)
    as [-> ->].
  rewrite res_bind.
  match goal with
  | |- context [or_else_query D ?first ?sel (dashboard_state w)] =>
      destruct (or_else_query_readable first sel (dashboard_state w) Hdom)
        as [-> ->]
  end.
  match goal with
  | |- context [scan ?p ?xs [] ?w'] =>
      destruct (@scan_keeps (fun _ => True) p (fun _ _ _ _ => I) xs [] w'
                  (Forall_nil _)) as (out & Ho & _ & Hl)
  end.
  exists out. split; [exact Ho|].
  cbn [List.length] in Hl. cbn [first_nonempty card_selectors].
  clear Ho. revert Hl.
  destruct (dom "mee-card"), (dom "[class*='card'], [class*='Card']"),
    (dom "a[href*='daily'], a[href*='quiz'], a[href*='poll']");
    cbn; lia.
Qed.

Lemma extract_points_shape words :
  extract_points U words = [] \/
  (startswith (lit "+") (extract_points U words) = true /\
   str_isdigit U (from1 (extract_points U words)) = true).
Proof.
  induction words as [|word rest IH]; [now left|]. cbn [extract_points].
  destruct (startswith (lit "+") word && str_isdigit U (from1 word)) eqn:E;
    [|exact IH].
  right. now apply andb_true_iff in E.
Qed.

Lemma parse_link_shape link w a :
  res (parse_link U D link w) = Ok (Some a) -> alt_shape U a.
Proof.
  unfold parse_link. intros H.
  invert_bind H. invert_bind H.
  match type of H with
  | context [negb (truthy ?t) || Nat.ltb ?n 5 || Nat.ltb 200 ?n] =>
      destruct (truthy t) eqn:Et; cbn [negb orb] in H; [|discriminate];
      destruct (Nat.ltb n 5) eqn:El; cbn [orb] in H; [discriminate|];
      destruct (Nat.ltb 200 n) eqn:Eh; [discriminate|]
  end.
  match type of H with
  | context [?r && truthy ?u] =>
      destruct r; cbn [andb] in H; [|discriminate];
      destruct (truthy u) eqn:Eu; [|discriminate]
  end.
  cbn [ret res] in H. inversion H; subst a; clear H.
  unfold alt_shape. cbn [title points]. split.
  - match type of El with
    | Nat.ltb (List.length ?t) 5 = false =>
        change (5 <= List.length (firstn 80 t) <= 80)
    end.
    rewrite length_firstn. apply Nat.ltb_ge in El. lia.
  - apply extract_points_shape.
Qed.

(** X13. Each activity the alternative detector returns has a title of 5
    to 80 characters and a points label that is empty or a plus sign
    followed by digits; it returns at most one activity per link of the
    page, and what it returns when the DOM cannot be read is the empty
    list. *)
Theorem alternative_detection_shape (w : World D) (acts : list Activity) :
  res (_detect_alternative U D w) = Ok acts ->
  Forall (alt_shape U) acts /\
  match page_dom D w with
  | Ok dom => List.length acts <= List.length (dom "a[href]")
  | Raise _ => acts = []
  end.
Proof.
  unfold _detect_alternative.
  rewrite res_try, res_bind, res_query_selector_all,
    world_query_selector_all.
  destruct (page_dom D w) as [dom|e].
  - destruct (@scan_keeps (alt_shape U) (parse_link U D)
                (@parse_link_shape) (dom "a[href]") [] w (Forall_nil _))
      as (out & Ho & HP & Hl).
    rewrite Ho. intros H. inversion H; subst acts. split; auto.
  - cbn. intros H. inversion H; subst acts. split; auto.
Qed.

End DetectionShape.

(* ------------------------------------------------------------------ *)
(** ** When the handlers report success *)

Ltac not_in H :=
  cbn in H; repeat (destruct H as [H|H]; [discriminate|]); destruct H.

Section PollSuccess.

Variable D : Driver.

(** X14. The poll handler returns true exactly when it clicked an option
    and the click did not raise. *)
Theorem poll_succeeds_iff_clicked (w : World D) :
  res (handle_poll D w) = Ok true <->
  In (EvClick OptionElem true) (trace (handle_poll D w)).
Proof.
  unfold handle_poll, handle_poll_body, try_except, bind, or_else_query,
    query_selector_all, click, call, _random_delay, ret.
  destruct (page_dom D w) as [dom|e] eqn:Hdom; cbn [res world trace].
  2: { split; [discriminate | intros []]. }
  destruct (dom poll_option_sel) as [|x xs] eqn:E1;
    cbn [is_nil res world trace].
  - rewrite Hdom. cbn [res world trace].
    destruct (dom poll_broad_sel) as [|y ys] eqn:E2;
      cbn [is_nil res world trace].
    + split; [discriminate | intros H; not_in H].
    + unfold random_choice.
      destruct (randbelow D (List.length (y :: ys)) w) as [i w'].
      cbn [res world trace].
      destruct (el_click D _ w') as [[[]|e] w''];
        cbn [res world trace is_ok].
      * split; [intros _|reflexivity]. cbn. auto 10.
      * split; [discriminate | intros H; not_in H].
  - unfold random_choice.
    destruct (randbelow D (List.length (x :: xs)) w) as [i w'].
    cbn [res world trace].
    destruct (el_click D _ w') as [[[]|e] w''];
      cbn [res world trace is_ok].
    + split; [intros _|reflexivity]. cbn. auto 10.
    + split; [discriminate | intros H; not_in H].
Qed.

End PollSuccess.

Section Lenient.

Variable D : Driver.
Hypothesis readable : forall w, exists dom, page_dom D w = Ok dom.

Lemma query_selector_readable sel w :
  exists r, res (query_selector D sel w) = Ok r.
Proof.
  unfold query_selector, read. cbn [res].
  destruct (readable w) as [dom ->]. eauto.
Qed.

Lemma random_choice_nonempty (seq : list (Elem D)) w :
  is_nil seq = false -> exists c, res (random_choice D seq w) = Ok c.
Proof.
  destruct seq as [|x xs]; [discriminate|]. intros _. unfold random_choice.
  destruct (randbelow D (List.length (x :: xs)) w). cbn. eauto.
Qed.

Lemma iteration_tail_lenient options (complete_sel : string)
    (loop : M D (option bool)) w :
  is_nil options = false ->
  (forall w', exists r, res (loop w') = Ok r /\ (r = None \/ r = Some true)) ->
  exists r,
    res ((choice <- random_choice D options ;;
          click_guarded D choice ;;;
          _random_delay D 1500 3000 ;;;
          complete <- query_selector D complete_sel ;;
          if is_some complete then ret (Some true) else loop) w) = Ok r /\
    (r = None \/ r = Some true).
Proof.
  intros Hne IH. rewrite res_bind.
  destruct (random_choice_nonempty _ w Hne) as [c ->].
  rewrite res_bind, res_click_guarded, res_bind.
  cbn [_random_delay res world]. rewrite res_bind.
  match goal with
  | |- context [res (query_selector D ?s ?w')] =>
      destruct (query_selector_readable s w') as [r ->]
  end.
  destruct (is_some r); [|apply IH].
  exists (Some true). cbn. auto.
Qed.

Lemma trivia_loop_lenient n : forall w,
  exists r, res (trivia_loop D n w) = Ok r /\ (r = None \/ r = Some true).
Proof.
  induction n as [|n IH]; intros w; cbn [trivia_loop].
  - exists None. cbn. auto.
  - rewrite res_bind, res_query_selector_all, world_query_selector_all.
    destruct (readable w) as [dom ->].
    destruct (is_nil (dom trivia_option_sel)) eqn:E.
    + exists None. cbn. auto.
    + now apply iteration_tail_lenient.
Qed.

Lemma quiz_loop_lenient n : forall w,
  exists r, res (quiz_loop D n w) = Ok r /\ (r = None \/ r = Some true).
Proof.
  induction n as [|n IH]; intros w; cbn [quiz_loop].
  - exists None. cbn. auto.
  - rewrite res_bind, res_query_selector_all, world_query_selector_all.
    destruct (readable w) as [dom Hdom]. rewrite Hdom. rewrite res_bind.
    destruct (or_else_query_readable D (dom quiz_option_sel)
                quiz_generic_sel w Hdom) as [-> ->].
    match goal with
    | |- context [if is_nil ?l then ret None else _] =>
        destruct (is_nil l) eqn:E
    end.
    + exists None. cbn. auto.
    + now apply iteration_tail_lenient.
Qed.

Lemma after_loop_true r (w : World D) :
  r = None \/ r = Some true -> res (after_loop r (ret true) w) = Ok true.
Proof. intros [->| ->]; reflexivity. Qed.

(** X15. On a page whose DOM can always be read, the trivia handler returns
    true whatever happens: options running out, the iteration bound being
    reached and clicks that raise all count as success.  The quiz handler
    does the same unless the click on its start button raised. *)
Theorem handlers_fail_only_on_errors (w : World D) :
  res (handle_trivia D w) = Ok true /\
  (res (handle_quiz D w) = Ok true \/
   In (EvClick StartButton false) (trace (handle_quiz D w))).
Proof.
  split.
  - unfold handle_trivia, handle_trivia_body. rewrite res_try, res_bind.
    destruct (trivia_loop_lenient 15 w) as (r & -> & Hr).
    now rewrite after_loop_true.
  - unfold handle_quiz, handle_quiz_body.
    rewrite res_try, trace_try, res_bind, trace_bind.
    unfold query_selector, read. cbn [res world trace app].
    destruct (readable w) as [dom ->].
    destruct (hd_error (dom quiz_start_sel)) as [b|].
    + rewrite res_bind, trace_bind, res_bind, trace_bind. unfold click.
      rewrite res_call, trace_call.
      destruct (fst (el_click D b w)) as [[]|e] eqn:Ec; cbn [is_ok].
      * left. rewrite res_bind.
        match goal with
        | |- context [res (quiz_loop D 20 ?w')] =>
            destruct (quiz_loop_lenient 20 w') as (r & -> & Hr)
        end.
        now rewrite after_loop_true.
      * right. cbn. auto.
    + left. rewrite res_bind. cbn [ret res world]. rewrite res_bind.
      match goal with
      | |- context [res (quiz_loop D 20 ?w')] =>
          destruct (quiz_loop_lenient 20 w') as (r & -> & Hr)
      end.
      now rewrite after_loop_true.
Qed.

End Lenient.

(* ------------------------------------------------------------------ *)
(** ** The order of the activity loop *)

Section Order.

Variable D : Driver.

Lemma filter_none (p : Event -> bool) (phi : Event -> Prop) t :
  (forall e, phi e -> p e = false) -> Forall phi t -> filter p t = [].
Proof.
  intros Himp H. induction H as [|e t He _ IH]; [reflexivity|].
  cbn. now rewrite (Himp e He).
Qed.

Lemma not_activity_of_page e : page_event e -> is_activity e = false.
Proof. destruct e; cbn; auto; contradiction. Qed.

Lemma complete_activity_body_opens_nothing a :
  emits (all (fun e => is_activity e = false)) 0
    (try_except (complete_activity_body D a) (fun _ => ret false)).
Proof.
  unfold complete_activity_body.
  eapply emits_try with (a := 0) (b := 0); try all_side; [|all_go].
  do 2 (eapply emits_bind with (a := 0) (b := 0); try all_side;
        [all_go|]; intros ?).
  eapply emits_bind with (a := 0) (b := 0); try all_side.
  - eapply emits_weaken; [apply not_activity_of_page|].
    apply detect_activity_type_page.
  - intros t. eapply emits_weaken; [apply not_activity_of_page|].
    apply handlers_get_page.
Qed.

Lemma back_to_dashboard_opens_nothing :
  emits (all (fun e => is_activity e = false)) 0 (back_to_dashboard D).
Proof. unfold back_to_dashboard. all_go. Qed.

Lemma complete_activity_opens_itself a w :
  filter is_activity (trace (complete_activity D a w)) = [EvActivity a].
Proof.
  unfold complete_activity. rewrite trace_bind.
  cbn [announce res trace world app filter is_activity]. f_equal.
  apply filter_none with (phi := fun e => is_activity e = false); [auto|].
  apply complete_activity_body_opens_nothing.
Qed.

(** X16. The activity loop opens the activities of its list in the order of
    the list, each exactly once, whatever their outcomes. *)
Theorem activities_handled_in_detection_order (acts : list Activity) :
  forall completed w,
    filter is_activity (trace (run_activities D acts completed w))
    = map EvActivity acts.
Proof.
  induction acts as [|act rest IH]; intros completed w;
    cbn [run_activities map]; [reflexivity|].
  rewrite trace_bind.
  destruct (complete_activity_total D act w) as [success ->].
  rewrite filter_app, complete_activity_opens_itself. cbn [app]. f_equal.
  rewrite trace_bind. cbn [_random_delay res trace world app filter
    is_activity].
  rewrite trace_bind, back_to_dashboard_ok, filter_app.
  rewrite filter_none with (phi := fun e => is_activity e = false)
    (t := trace (back_to_dashboard D _));
    [|auto|apply back_to_dashboard_opens_nothing].
  apply IH.
Qed.

End Order.

(* ------------------------------------------------------------------ *)
(** ** Further concrete runs *)

Lemma tally_witness :
  res (run_daily_activities ascii_tables (Toy.driver Toy.dashboard)
         (lit "msedge.exe") (lit "Default") false false Toy.start) = Ok 1 /\
  1 <= opened
         (trace (run_daily_activities ascii_tables (Toy.driver Toy.dashboard)
                   (lit "msedge.exe") (lit "Default") false false Toy.start)).
Proof.
  assert (H : res (run_daily_activities ascii_tables
                     (Toy.driver Toy.dashboard) (lit "msedge.exe")
                     (lit "Default") false false Toy.start) = Ok 1).
  { vm_compute. reflexivity. }
  split; [exact H|].
  exact (@tally_never_exceeds_opened ascii_tables (Toy.driver Toy.dashboard)
           (lit "msedge.exe") (lit "Default") false false Toy.start 1 H).
Defined.

Lemma try_block_witness :
  res (session ascii_tables (Toy.driver Toy.dashboard) (lit "msedge.exe")
         false false Toy.start) = Ok 1 /\
  existsb is_close
    (trace (session ascii_tables (Toy.driver Toy.dashboard)
              (lit "msedge.exe") false false Toy.start)) = true.
Proof.
  assert (H : res (session ascii_tables (Toy.driver Toy.dashboard)
                     (lit "msedge.exe") false false Toy.start) = Ok 1).
  { vm_compute. reflexivity. }
  split; [exact H|].
  exact (@try_block_return_closes_context ascii_tables
           (Toy.driver Toy.dashboard) (lit "msedge.exe") false false
           Toy.start 1 H).
Defined.

Lemma login_check_decision_witness :
  res (_check_login ascii_tables (Toy.driver Toy.signed_out) Toy.start)
  = Ok false.
Proof.
  exact (@login_check_decision ascii_tables (Toy.driver Toy.signed_out)
           Toy.start (Toy.only login_signin_sel [5])
           (lit "Sign in to continue") eq_refl eq_refl).
Defined.


Lemma preferred_browser_witness :
  pick_preferred ["edge"; "chrome"; "brave"]
    [("chrome", lit "chrome.exe"); ("edge", lit "msedge.exe")] [] =
  pick_preferred ["edge"; "chrome"; "brave"]
    [("edge", lit "msedge.exe"); ("chrome", lit "chrome.exe")] [].
Proof.
  apply preferred_browser_ignores_scan_order.
  - constructor; [|constructor; [|constructor]].
    + intros [H|[]]. discriminate.
    + intros [].
  - apply perm_swap.
Defined.

Lemma no_browser_witness :
  run_daily_activities ascii_tables (Toy.driver Toy.no_browser) []
    (lit "Default") false false Toy.start
  = mkOut (D := Toy.driver Toy.no_browser) (Ok 0) Toy.start [].
Proof.
  apply (@no_browser_nothing_started ascii_tables
           (Toy.driver Toy.no_browser) (lit "Default") false false Toy.start).
  right. reflexivity.
Defined.

Lemma lenient_handlers_witness :
  res (handle_trivia (Toy.driver Toy.quiz_three) Toy.start) = Ok true /\
  (res (handle_quiz (Toy.driver Toy.quiz_three) Toy.start) = Ok true \/
   In (EvClick StartButton false)
      (trace (handle_quiz (Toy.driver Toy.quiz_three) Toy.start))).
Proof.
  apply (@handlers_fail_only_on_errors (Toy.driver Toy.quiz_three)).
  intros w. eexists. reflexivity.
Defined.

(* ------------------------------------------------------------------ *)
(** ** Browser discovery *)

Section Discovery.

Variable S : BrowserUtils.System.

Import BrowserUtils.

Lemma first_existing_app l1 l2 :
  first_existing S (l1 ++ l2) =
  match first_existing S l1 with
  | Ok None => first_existing S l2
  | r => r
  end.
Proof.
  induction l1 as [|x l1 IH]; [reflexivity|]. cbn.
  destruct (path_exists S x) as [[]|e]; [reflexivity | exact IH | reflexivity].
Qed.

Lemma try_app_paths_find base_dir exe_name apps :
  try_app_paths S base_dir exe_name apps =
  first_existing S
    (map (fun app_path => path_div (path_div base_dir app_path) exe_name)
         apps).
Proof.
  induction apps as [|app apps IH]; [reflexivity|]. cbn.
  destruct (path_exists S _) as [[]|e]; [reflexivity | exact IH | reflexivity].
Qed.

(** The two nested loops look at the candidates in order and stop at the
    first that exists, or at the first existence check that raises. *)
Lemma try_dirs_find dirs info :
  try_dirs S dirs (exe info) (app_paths info) =
  first_existing S (candidates dirs info).
Proof.
  induction dirs as [|d dirs IH]; [reflexivity|].
  cbn [try_dirs candidates flat_map]. rewrite first_existing_app.
  rewrite try_app_paths_find, IH.
  destruct (first_existing S _) as [[p|]|e]; reflexivity.
Qed.

Lemma first_existing_some cs p :
  first_existing S cs = Ok (Some p) ->
  In p cs /\ path_exists S p = Ok true.
Proof.
  induction cs as [|c cs IH]; [discriminate|]. cbn.
  destruct (path_exists S c) as [[]|e] eqn:E; [| |discriminate].
  - intros H. inversion H; subst p. split; [now left | exact E].
  - intros H. destruct (IH H). split; [now right | assumption].
Qed.

Lemma first_existing_none cs :
  first_existing S cs = Ok None ->
  Forall (fun c => path_exists S c = Ok false) cs.
Proof.
  induction cs as [|c cs IH]; [constructor|]. cbn.
  destruct (path_exists S c) as [[]|e] eqn:E; [discriminate| |discriminate].
  intros H. constructor; [exact E | exact (IH H)].
Qed.

Lemma first_existing_at before c after :
  Forall (fun b => path_exists S b = Ok false) before ->
  path_exists S c = Ok true ->
  first_existing S (before ++ c :: after)%list = Ok (Some c).
Proof.
  intros Hb Hc. induction Hb as [|b before Hb _ IH]; cbn.
  - now rewrite Hc.
  - now rewrite Hb.
Qed.

(** X17. An executable found for a browser either exists on disk at one of
    the standard locations of that browser, or is what the PATH lookup
    returned; the PATH is consulted only when none of the standard
    locations has the executable.  An unknown browser key finds nothing. *)
Theorem found_executable_exists_or_on_path (browser_key : string)
    (p : Path) :
  find_browser_executable S browser_key = Ok (Some p) ->
  exists info local,
    lookup browser_key BROWSERS = Some info /\
    get_local_appdata S = Ok local /\
    let cs := candidates (get_program_files S ++ [local]) info in
    (In p cs /\ path_exists S p = Ok true) \/
    (Forall (fun c => path_exists S c = Ok false) cs /\
     exists s, which S (exe info) = Some s /\ p = [s]).
Proof.
  unfold find_browser_executable.
  destruct (lookup browser_key BROWSERS) as [info|]; [|discriminate].
  destruct (get_local_appdata S) as [local|e]; [|discriminate].
  rewrite try_dirs_find. intros H. exists info, local.
  split; [reflexivity|]. split; [reflexivity|]. cbn zeta.
  destruct (first_existing S _) as [[c|]|e] eqn:E; [| |discriminate].
  - inversion H; subst c. left. now apply first_existing_some.
  - right. split.
    + now apply first_existing_none.
    + destruct (which S (exe info)) as [s|]; [|discriminate].
      destruct (truthy s); inversion H. now exists s.
Qed.

(** Without a home directory the search raises before it looks anywhere,
    and an existence check that raises ends it. *)
Lemma find_browser_executable_raises browser_key info e :
  lookup browser_key BROWSERS = Some info ->
  (home S = Raise e \/
   exists local (before : list Path) c after,
     get_local_appdata S = Ok local /\
     candidates (get_program_files S ++ [local]) info =
     (before ++ c :: after)%list /\
     Forall (fun b => path_exists S b = Ok false) before /\
     path_exists S c = Raise e) ->
  find_browser_executable S browser_key = Raise e.
Proof.
  intros Hk H. unfold find_browser_executable. rewrite Hk.
  destruct H as [H|(local & before & c & after & Hl & Hc & Hb & He)].
  - unfold get_local_appdata. now rewrite H.
  - rewrite Hl, try_dirs_find, Hc. clear Hc.
    induction Hb as [|b before Hb _ IH]; cbn.
    + now rewrite He.
    + now rewrite Hb.
Qed.

(** X18. A browser installed at a standard location is found there,
    whatever the PATH holds: when the home directory is known, so that
    the local application data directory is determined, and the existence
    checks of the standard locations looked at before [c] answer no
    without raising, and [c] exists, the executable found is [c]. *)
Theorem standard_location_beats_path (browser_key : string)
    (info : BrowserInfo) (local : Path) (before : list Path) (c : Path)
    (after : list Path) :
  lookup browser_key BROWSERS = Some info ->
  get_local_appdata S = Ok local ->
  candidates (get_program_files S ++ [local]) info =
     (before ++ c :: after)%list ->
  Forall (fun b => path_exists S b = Ok false) before ->
  path_exists S c = Ok true ->
  find_browser_executable S browser_key = Ok (Some c).
Proof.
  intros Hk Hl Hc Hb Hex. unfold find_browser_executable.
  rewrite Hk, Hl, try_dirs_find, Hc.
  now rewrite first_existing_at.
Qed.

(** X19. The scan lists the browsers it found in the order edge, chrome,
    brave, which is the order of preference of the daily activities: the
    browser picked from a scan is the first one the scan lists, and the
    given path when the scan lists none. *)
Theorem autodetect_picks_first_of_scan (r : list (string * Found))
    (browser_path : pystr) :
  scan_system S = Ok r ->
  pick_preferred ["edge"; "chrome"; "brave"] (executables r) browser_path =
  match r with
  | [] => browser_path
  | kv :: _ => executable (snd kv)
  end.
Proof.
  unfold scan_system, BROWSERS. cbn [scan_entries].
  generalize (find_browser_executable S "edge"),
    (find_browser_executable S "chrome"),
    (find_browser_executable S "brave"),
    (get_browser_profiles S "edge"), (get_browser_profiles S "chrome"),
    (get_browser_profiles S "brave").
  intros [[p1|]|e1] [[p2|]|e2] [[p3|]|e3] [q1|f1] [q2|f2] [q3|f3] H;
    cbn in H; try discriminate; inversion H; subst r; reflexivity.
Qed.

End Discovery.

Lemma found_executable_witness :
  BrowserUtils.find_browser_executable BrowserUtils.sample "chrome"
  = Ok (Some [lit "C:\tools\chrome.exe"]) /\
  exists info local,
    BrowserUtils.lookup "chrome" BrowserUtils.BROWSERS = Some info /\
    BrowserUtils.get_local_appdata BrowserUtils.sample = Ok local.
Proof.
  assert (H : BrowserUtils.find_browser_executable BrowserUtils.sample
                "chrome" = Ok (Some [lit "C:\tools\chrome.exe"])).
  { vm_compute. reflexivity. }
  split; [exact H|].
  destruct (found_executable_exists_or_on_path BrowserUtils.sample
              "chrome" H) as (info & local & Hi & Hl & _).
  exists info, local. split; [exact Hi | exact Hl].
Defined.

Lemma standard_location_witness :
  BrowserUtils.find_browser_executable BrowserUtils.user_install "edge"
  = Ok (Some [lit "C:\Users\bot\AppData\Local";
              lit "Microsoft/Edge Beta/Application"; lit "msedge.exe"]).
Proof.
  apply (@standard_location_beats_path BrowserUtils.user_install "edge"
           {| BrowserUtils.name := "Microsoft Edge";
              BrowserUtils.exe := "msedge.exe";
              BrowserUtils.app_paths :=
                [ "Microsoft/Edge/Application";
                  "Microsoft/Edge Beta/Application";
                  "Microsoft/Edge Dev/Application" ];
              BrowserUtils.user_data := [ "Microsoft/Edge/User Data" ] |}
           [lit "C:\Users\bot\AppData\Local"]
           [ [lit "C:\Program Files"; lit "Microsoft/Edge/Application";
              lit "msedge.exe"];
             [lit "C:\Program Files"; lit "Microsoft/Edge Beta/Application";
              lit "msedge.exe"];
             [lit "C:\Program Files"; lit "Microsoft/Edge Dev/Application";
              lit "msedge.exe"];
             [lit "C:\Users\bot\AppData\Local";
              lit "Microsoft/Edge/Application"; lit "msedge.exe"] ]
           [lit "C:\Users\bot\AppData\Local";
            lit "Microsoft/Edge Beta/Application"; lit "msedge.exe"]
           [ [lit "C:\Users\bot\AppData\Local";
              lit "Microsoft/Edge Dev/Application"; lit "msedge.exe"] ]).
  - reflexivity.
  - reflexivity.
  - reflexivity.
  - repeat constructor.
  - reflexivity.
Defined.

Lemma alternative_detection_witness :
  Forall (alt_shape ascii_tables) Toy.links_activities /\
  List.length Toy.links_activities <= 2.
Proof.
  assert (H : res (_detect_alternative ascii_tables (Toy.driver Toy.links)
                     Toy.start) = Ok Toy.links_activities)
    by (vm_compute; reflexivity).
  exact (@alternative_detection_shape ascii_tables (Toy.driver Toy.links)
           Toy.start Toy.links_activities H).
Defined.

Lemma autodetect_scan_witness :
  exists r,
    BrowserUtils.scan_system BrowserUtils.sample = Ok r /\
    pick_preferred ["edge"; "chrome"; "brave"] (BrowserUtils.executables r) []
    = lit "C:\Program FilesMicrosoft/Edge/Applicationmsedge.exe".
Proof.
  destruct (BrowserUtils.scan_system BrowserUtils.sample) as [r|e] eqn:E;
    [|vm_compute in E; discriminate].
  exists r. split; [reflexivity|].
  rewrite (@autodetect_picks_first_of_scan BrowserUtils.sample r [] E).
  vm_compute in E. inversion E. reflexivity.
Defined.

(* ------------------------------------------------------------------ *)
(** ** Driver failures contained by the entry point *)

Section Boundary.

Variable U : Unicode.
Variable D : Driver.

Hypothesis start_ok : forall w, is_ok (fst (playwright_start D w)) = true.
Hypothesis stop_ok : forall w, is_ok (fst (playwright_stop D w)) = true.

Lemma autodetect_total browser_path w :
  exists bp, res (autodetect D browser_path w) = Ok bp.
Proof.
  unfold autodetect. destruct (truthy browser_path).
  - eexists. reflexivity.
  - apply try_except_total.
Qed.

(** X20. The entry point contains the failures of its driver calls: once
    Playwright is imported, when entering and leaving the Playwright manager
    do not raise, no exception raised by another call of the driver (browser
    scan, profile directory, launch, navigation, login, detection, handlers,
    close) leaves the run, which returns a count. *)
Theorem run_returns_unless_playwright_fails (browser_path profile : pystr)
    (headless dryrun : bool) (w : World D) :
  exists n,
    res (run_daily_activities U D browser_path profile headless dryrun w)
    = Ok n.
Proof.
  unfold run_daily_activities. rewrite res_bind.
  destruct (autodetect_total browser_path w) as [bp ->].
  destruct (negb (truthy bp)); [eexists; reflexivity|].
  rewrite res_bind, res_call.
  match goal with
  | |- context [fst (playwright_start D ?w')] =>
      pose proof (start_ok w') as Hs;
      destruct (fst (playwright_start D w')) as [[]|e]; [|discriminate]
  end.
  rewrite res_bind.
  match goal with
  | |- context [res (try_except ?m ?h ?w')] =>
      destruct (try_except_total m 0 w') as [completed ->]
  end.
  rewrite res_bind, res_call.
  match goal with
  | |- context [fst (playwright_stop D ?w')] =>
      pose proof (stop_ok w') as Hp;
      destruct (fst (playwright_stop D w')) as [[]|e]; [|discriminate]
  end.
  eexists. reflexivity.
Qed.

End Boundary.

Lemma run_returns_witness :
  exists n,
    res (run_daily_activities ascii_tables (Toy.driver Toy.unreachable)
           [] (lit "Default") false false Toy.start) = Ok n.
Proof.
  apply (@run_returns_unless_playwright_fails ascii_tables
           (Toy.driver Toy.unreachable)); intros w; reflexivity.
Defined.
